(** * The content-acquisition and rewrite pipeline

    A shallow embedding of the three programs that make up the pipeline:

    - the scraping command [ScrapeBeyondChats] of the article service (PHP),
    - the [ArticleController] of the article service (PHP),
    - the script [rewrite-latest.js] of the AI rewriter service (JavaScript).

    Strings are byte strings.  Everything that reaches the programs from the
    outside (HTTP replies, DOM queries, the language model, library
    functions of the frameworks) is an oracle held in an environment
    record; the article table and the counters the programs keep are
    threaded through explicitly. *)

From Stdlib Require Import String Ascii List Bool Arith PeanoNat ZArith Lia Sorted.
From Stdlib Require Decimal DecimalString DecimalNat.
Import ListNotations.

Local Open Scope list_scope.
Local Open Scope string_scope.
Local Open Scope nat_scope.

Set Implicit Arguments.

(* ===================================================================== *)
(** * Part I: definitions                                                 *)
(* ===================================================================== *)

(** ** String built-ins of JavaScript and PHP *)

Module Str.

Definition chr (n : nat) : string := String (ascii_of_nat n) "".

(** Line feed and the double quote, which the sources write inside
    their literals. *)
Definition nl : string := chr 10.
Definition dq : string := chr 34.

(** JS [s.startsWith(p)]; PHP [strpos(s, p) === 0]. *)
Definition startsWith (p s : string) : bool := String.prefix p s.

(** JS [s.includes(sub)]; PHP [strpos(s, sub) !== false]. *)
Fixpoint includes (sub s : string) : bool :=
  if String.prefix sub s then true
  else match s with
       | "" => false
       | String _ s' => includes sub s'
       end.

Definition lower_ascii (c : ascii) : ascii :=
  let n := nat_of_ascii c in
  if (65 <=? n) && (n <=? 90) then ascii_of_nat (n + 32) else c.

(** JS [s.toLowerCase()], on the ASCII letters. *)
Fixpoint toLowerCase (s : string) : string :=
  match s with
  | "" => ""
  | String c s' => String (lower_ascii c) (toLowerCase s')
  end.

Definition code_in (codes : list nat) (c : ascii) : bool :=
  existsb (Nat.eqb (nat_of_ascii c)) codes.

(** The ASCII part of the white space of JS [trim] and of [\s] in both
    regular expression engines: TAB, LF, VT, FF, CR, space. *)
Definition is_space : ascii -> bool := code_in [9; 10; 11; 12; 13; 32].

(** The default character list of PHP [trim]: space, TAB, LF, CR, NUL, VT. *)
Definition is_php_trim_char : ascii -> bool := code_in [32; 9; 10; 13; 0; 11].

Definition is_newline : ascii -> bool := code_in [10].
Definition is_digit (c : ascii) : bool :=
  let n := nat_of_ascii c in (48 <=? n) && (n <=? 57).

Fixpoint trimStart (ws : ascii -> bool) (s : string) : string :=
  match s with
  | "" => ""
  | String c s' => if ws c then trimStart ws s' else s
  end.

Fixpoint trimEnd (ws : ascii -> bool) (s : string) : string :=
  match s with
  | "" => ""
  | String c s' =>
      match trimEnd ws s' with
      | "" => if ws c then "" else String c ""
      | t => String c t
      end
  end.

Definition trim_with (ws : ascii -> bool) (s : string) : string :=
  trimEnd ws (trimStart ws s).

(** JS [s.trim()]. *)
Definition trim : string -> string := trim_with is_space.
(** PHP [trim($s)]. *)
Definition php_trim : string -> string := trim_with is_php_trim_char.

(** PHP [ltrim($s, '/')]. *)
Definition ltrim_slash : string -> string :=
  trimStart (code_in [47]).

(** JS [s.split(c)[0]] for a one-character separator: the text before
    the first [c], the whole string when [c] does not occur. *)
Fixpoint split_first (c : ascii) (s : string) : string :=
  match s with
  | "" => ""
  | String d s' => if Ascii.eqb d c then "" else String d (split_first c s')
  end.

(** JS [xs.join(sep)]. *)
Definition join (sep : string) (xs : list string) : string :=
  String.concat sep xs.

(** Decimal rendering of a number, as string interpolation does it. *)
Definition of_nat (n : nat) : string :=
  DecimalString.NilEmpty.string_of_uint (Nat.to_uint n).

(** Drop the first [n] characters. *)
Fixpoint drop (n : nat) (s : string) : string :=
  match n, s with
  | 0, _ => s
  | S _, "" => ""
  | S k, String _ s' => drop k s'
  end.

(** Does the string contain a character satisfying [p]? *)
Fixpoint has_char (p : ascii -> bool) (s : string) : bool :=
  match s with
  | "" => false
  | String c s' => p c || has_char p s'
  end.

(** [sub] occurs in [s]. *)
Definition contains (sub s : string) : Prop :=
  exists pre post, s = pre ++ sub ++ post.


(** [xs] is [ys] with some elements left out. *)
Inductive subseq {A : Type} : list A -> list A -> Prop :=
| subseq_nil : subseq [] []
| subseq_skip y xs ys : subseq xs ys -> subseq xs (y :: ys)
| subseq_take x xs ys : subseq xs ys -> subseq (x :: xs) (x :: ys).

End Str.

(** ** The article table and [ArticleController] (article service) *)

Module Store.

(** [enum('version', ['original', 'rewritten'])]. *)
Inductive Version := original | rewritten.

(** A row of the [articles] table, after both migrations.  The two
    timestamp columns are left out: rows are kept in insertion order,
    which is the order of [created_at]. *)
Record Article := {
  id : nat;
  title : string;
  slug : string;
  content : string;
  source_url : option string;
  version : Version;
  is_rewritten : bool;
  parent_article_id : option nat;
  references : option (list string);
  published_at : option string
}.

Definition Table := list Article.

(** The attributes handed to [Article::create]. *)
Record Attributes := {
  a_title : string;
  a_slug : string;
  a_content : string;
  a_source_url : option string;
  a_version : Version;
  a_parent_article_id : option nat;
  a_references : option (list string);
  a_published_at : option string
}.

Definition has_source_url (url : string) (a : Article) : bool :=
  match source_url a with
  | Some u => String.eqb u url
  | None => false
  end.

(** [Article::where('source_url', $url)->exists()]. *)
Definition source_url_exists (db : Table) (url : string) : bool :=
  existsb (has_source_url url) db.

(** [Article::where('slug', $slug)->exists()]. *)
Definition slug_exists (db : Table) (s : string) : bool :=
  existsb (fun a => String.eqb (slug a) s) db.

(** [Article::find($id)]. *)
Definition find (db : Table) (i : nat) : option Article :=
  List.find (fun a => id a =? i) db.

(** The auto-increment key of the next row. *)
Definition next_id (db : Table) : nat := S (list_max (map id db)).

(** [Article::create]: the insert is refused (SQLSTATE 23000) when it
    would break one of the two [unique()] indexes of the migration;
    [is_rewritten] takes its column default.  The database refuses a
    row for no other reason here: column widths, which the server may
    or may not enforce, are not modelled. *)
Definition Article_create (db : Table) (a : Attributes)
  : option (Article * Table) :=
  let dup_url := match a_source_url a with
                 | Some u => source_url_exists db u
                 | None => false
                 end in
  if slug_exists db (a_slug a) || dup_url then None
  else
    let row := {| id := next_id db;
                  title := a_title a;
                  slug := a_slug a;
                  content := a_content a;
                  source_url := a_source_url a;
                  version := a_version a;
                  is_rewritten := false;
                  parent_article_id := a_parent_article_id a;
                  references := a_references a;
                  published_at := a_published_at a |} in
    Some (row, (db ++ [row])%list).

Definition set_is_rewritten (a : Article) : Article :=
  {| id := id a;
     title := title a;
     slug := slug a;
     content := content a;
     source_url := source_url a;
     version := version a;
     is_rewritten := true;
     parent_article_id := parent_article_id a;
     references := references a;
     published_at := published_at a |}.

(** [$parentArticle->update(['is_rewritten' => true])]: an UPDATE of the
    row with the parent's key. *)
Definition mark_rewritten (db : Table) (p : nat) : Table :=
  map (fun a => if id a =? p then set_is_rewritten a else a) db.

(** What the controller takes from Laravel and from the [Article] model
    class, neither of which is part of the sources at hand. *)
Record Framework := {
  (** the validation rule [url] *)
  is_url : string -> bool;
  (** the validation rule [date] *)
  is_date : string -> bool;
  (** the slug the [Article] model gives a row created without one *)
  model_slug : Table -> string -> string
}.

(** The JSON body of [POST /api/articles]. *)
Record Request := {
  req_title : option string;
  req_content : option string;
  req_source_url : option string;
  req_version : option string;
  req_parent_article_id : option nat;
  req_references : option (list string);
  req_published_at : option string
}.

Inductive Response :=
| Created (a : Article)        (* 201 *)
| ValidationFailed             (* 422 *)
| ServerError.                 (* 500: the insert raised *)

Definition parse_version (s : string) : option Version :=
  if String.eqb s "original" then Some original
  else if String.eqb s "rewritten" then Some rewritten
  else None.

(** The rule [required] on a string: it must not be blank. *)
Definition required (s : string) : bool :=
  negb (String.eqb (Str.php_trim s) "").

(** [Validator::make(...)] with the rules of [store]; [None] when
    [$validator->fails()], else the validated attributes (the slug is
    filled in by the model).  The length of the title is counted in
    bytes, which are the characters of [max:255] for a title of ASCII
    characters. *)
Definition validate (fw : Framework) (db : Table) (r : Request)
  : option Attributes :=
  match req_title r, req_content r, req_version r with
  | Some t, Some c, Some v =>
      match parse_version v with
      | Some ver =>
          let title_ok := required t && (String.length t <=? 255) in
          let content_ok := required c in
          let url_ok := match req_source_url r with
                        | None => true
                        | Some u => is_url fw u && negb (source_url_exists db u)
                        end in
          let parent_ok := match req_parent_article_id r with
                           | None => true
                           | Some p => match find db p with
                                       | Some _ => true
                                       | None => false
                                       end
                           end in
          let refs_ok := match req_references r with
                         | None => true
                         | Some us => forallb (is_url fw) us
                         end in
          let date_ok := match req_published_at r with
                         | None => true
                         | Some d => is_date fw d
                         end in
          if title_ok && content_ok && url_ok && parent_ok && refs_ok && date_ok
          then Some {| a_title := t;
                       a_slug := model_slug fw db t;
                       a_content := c;
                       a_source_url := req_source_url r;
                       a_version := ver;
                       a_parent_article_id := req_parent_article_id r;
                       a_references := req_references r;
                       a_published_at := req_published_at r |}
          else None
      | None => None
      end
  | _, _, _ => None
  end.

Definition is_rewritten_version (v : Version) : bool :=
  match v with rewritten => true | original => false end.

(** [ArticleController::store]. *)
Definition store (fw : Framework) (db : Table) (r : Request)
  : Response * Table :=
  match validate fw db r with
  | None => (ValidationFailed, db)
  | Some attrs =>
      match Article_create db attrs with
      | None => (ServerError, db)
      | Some (article, db1) =>
          let db2 :=
            match parent_article_id article with
            | Some p =>
                if is_rewritten_version (version article) && negb (p =? 0)
                then match find db1 p with
                     | Some parent => mark_rewritten db1 (id parent)
                     | None => db1
                     end
                else db1
            | None => db1
            end in
          (Created article, db2)
      end
  end.

(** Modelled from the spec: the query scope [Article::unrewritten()] of
    the [Article] model class, which is not among the sources.  The
    store flags an original as processed through [is_rewritten], and
    [GET latest-unprocessed-article] serves originals only. *)
Definition unrewritten (a : Article) : bool :=
  negb (is_rewritten_version (version a)) && negb (is_rewritten a).

(** [ArticleController::latest]: [Article::unrewritten()->latest()->first()],
    [None] for the 404 reply.  The rows are taken to be created at
    different times, in the order of the table, so that the latest is
    the last. *)
Definition latest (db : Table) : option Article :=
  List.find unrewritten (List.rev db).

End Store.

(** ** The scraping command [ScrapeBeyondChats] (article service) *)

Module Scraper.
Import Str Store.

(** A fetched listing page, as the command looks at it. *)
Record ListingPage := {
  (** [$crawler->filter($selector)]: the [href] attribute of every node
      the selector matches, in document order *)
  lp_select : string -> list (option string);
  (** the first group of every match of the [href] pattern of the
      regex fallback in the raw markup *)
  lp_regex_hrefs : list string
}.

(** A fetched article page, as [scrapeArticle] looks at it. *)
Record ArticlePage := {
  (** text of the first node of ['h1, article h1, .post-title, .entry-title'] *)
  ap_heading : option string;
  (** text of the first [title] node *)
  ap_title : option string;
  (** inner HTML of the first node of
      ['article, .post-content, .entry-content, .article-content'] *)
  ap_content_html : option string;
  (** inner HTML of the first node of ['main, .main-content, #content'] *)
  ap_main_html : option string;
  (** the formatted date of the first date node, when there is one *)
  ap_published_at : option string
}.

(** The world outside the command.  A fetch that fails, or answers with
    a status outside 2xx, is [None]. *)
Record Web := {
  (** [$maxPage] at the end of the scans of [findLastPage] *)
  last_page_scan : option nat;
  get_listing : string -> option ListingPage;
  get_article : string -> option ArticlePage;
  (** [cleanHtml], a composition of [preg_replace], [strip_tags], [trim] *)
  cleanHtml : string -> string;
  (** [Str::slug] *)
  Str_slug : string -> string;
  (** [now()] *)
  now : string
}.

Record ArticleData := {
  ad_title : string;
  ad_content : string;
  ad_published_at : option string
}.

Inductive ExitCode := SUCCESS | FAILURE.

Definition baseUrl : string := "https://beyondchats.com/blogs/".
Definition targetCount : nat := 5.

(** A string PHP takes for true in a condition. *)
Definition truthy (s : string) : bool :=
  negb (String.eqb s "") && negb (String.eqb s "0").

(** [in_array($x, $xs)]. *)
Definition in_array (x : string) (xs : list string) : bool :=
  existsb (String.eqb x) xs.

(** [array_unique]: the first occurrence of every value is kept. *)
Fixpoint array_unique_from (seen xs : list string) : list string :=
  match xs with
  | [] => []
  | x :: rest =>
      if in_array x seen then array_unique_from seen rest
      else x :: array_unique_from (x :: seen) rest
  end.
Definition array_unique : list string -> list string := array_unique_from [].

(** [array_slice($xs, -$n)] for [n > 0]: the last [n] elements. *)
Definition array_slice_last (n : nat) (xs : list string) : list string :=
  skipn (length xs - n) xs.

(** [findLastPage]: 1 when the base page cannot be fetched, else
    [max(1, $maxPage)]. *)
Definition findLastPage (w : Web) : nat :=
  match last_page_scan w with
  | None => 1
  | Some maxPage => Nat.max 1 maxPage
  end.

Definition pageUrl (currentPage : nat) : string :=
  if currentPage =? 1 then baseUrl
  else "https://beyondchats.com/blogs" ++ "/page/" ++ of_nat currentPage ++ "/".

(** Relative links are made absolute. *)
Definition absolute (url : string) : string :=
  if startsWith "http" url then url
  else "https://beyondchats.com" ++ ltrim_slash url.

Definition excluded_link (url : string) : bool :=
  includes "?page=" url || includes "/page/" url ||
  includes "/category/" url || includes "/tag/" url ||
  includes "/author/" url || includes "#" url.

(** The closure run on every node a selector matches; [found] counts the
    links this selector has added. *)
Definition visit_node (acc : list string * nat) (href : option string)
  : list string * nat :=
  let '(urls, found) := acc in
  match href with
  | Some u =>
      if truthy u then
        let url := absolute u in
        if includes "/blogs/" url && negb (excluded_link url)
           && negb (in_array url urls)
        then ((urls ++ [url])%list, S found)
        else acc
      else acc
  | None => acc
  end.

(** The attribute selector [[href*="/blogs/"]]. *)
Definition blogs_href : string := "[href*=" ++ dq ++ "/blogs/" ++ dq ++ "]".

Definition link_selectors : list string :=
  [ ".entries article.entry-card .entry-title a";
    ".entries .entry-card .entry-title a";
    ".entries article a" ++ blogs_href;
    ".entries .entry-card a" ++ blogs_href;
    "article.entry-card a" ++ blogs_href;
    ".entry-title a" ++ blogs_href;
    "article a" ++ blogs_href;
    ".post a" ++ blogs_href;
    "a" ++ blogs_href ].

(** The selector loop: it stops at the first selector that added a link. *)
Fixpoint selector_cascade (page : ListingPage) (selectors : list string)
         (urls : list string) : list string :=
  match selectors with
  | [] => urls
  | selector :: rest =>
      let '(urls', found) :=
        fold_left visit_node (lp_select page selector) (urls, 0) in
      if 0 <? found then urls' else selector_cascade page rest urls'
  end.

(** The body of the loop of the regex fallback. *)
Definition visit_match (urls : list string) (u : string) : list string :=
  if excluded_link u then urls
  else
    let url := absolute u in
    if includes "/blogs/" url && negb (in_array url urls)
    then (urls ++ [url])%list
    else urls.

(** [getArticleUrlsFromPage]. *)
Definition getArticleUrlsFromPage (w : Web) (pageUrl : string) : list string :=
  match get_listing w pageUrl with
  | None => []
  | Some page =>
      let urls := selector_cascade page link_selectors [] in
      let urls := match urls with
                  | [] => fold_left visit_match (lp_regex_hrefs page) []
                  | _ => urls
                  end in
      array_unique urls
  end.

Definition is_sep : ascii -> bool := code_in [45; 124].

(** [.*$] at the head of [s]: what the match leaves over, which is
    nothing, or the line feed that ends the subject. *)
Fixpoint dot_star_end (s : string) : option string :=
  match s with
  | "" => Some ""
  | String c s' =>
      if is_newline c
      then match s' with "" => Some s | _ => None end
      else dot_star_end s'
  end.

(** The pattern [\s*[-|]\s*.*$] at the head of [s]. *)
Definition site_suffix_here (s : string) : option string :=
  match trimStart is_space s with
  | String c s' => if is_sep c then dot_star_end (trimStart is_space s') else None
  | "" => None
  end.

(** [preg_replace('/\s*[-|]\s*.*$/', '', $title)]. *)
Fixpoint strip_site_name (s : string) : string :=
  match s with
  | "" => ""
  | String c s' =>
      match site_suffix_here s with
      | Some left_over => left_over
      | None => String c (strip_site_name s')
      end
  end.

(** The title of [scrapeArticle]; the handler of the [try] block, which
    runs only when the DOM library raises, is not modelled. *)
Definition scrapeArticle_title (p : ArticlePage) : option string :=
  match ap_heading p with
  | Some t => Some (php_trim t)
  | None =>
      match ap_title p with
      | Some t => Some (strip_site_name (php_trim t))
      | None => None
      end
  end.

Definition scrapeArticle_content (w : Web) (p : ArticlePage) : option string :=
  match ap_content_html p with
  | Some html => Some (cleanHtml w html)
  | None =>
      match ap_main_html p with
      | Some html => Some (cleanHtml w html)
      | None => None
      end
  end.

(** [scrapeArticle]: [None] is PHP's [null]. *)
Definition scrapeArticle (w : Web) (url : string) : option ArticleData :=
  match get_article w url with
  | None => None
  | Some p =>
      match scrapeArticle_title p, scrapeArticle_content w p with
      | Some title, Some content =>
          if negb (truthy title) || negb (truthy content)
             || (String.length content <? 100)
          then None
          else Some {| ad_title := title;
                       ad_content := content;
                       ad_published_at := ap_published_at p |}
      | _, _ => None
      end
  end.

(** The [while] loop of [generateUniqueSlug]; every turn uses one unit
    of [fuel]. *)
Fixpoint generateUniqueSlug_loop (fuel : nat) (db : Table)
         (baseSlug slug : string) (counter : nat) : string :=
  match fuel with
  | 0 => slug
  | S fuel' =>
      if slug_exists db slug
      then generateUniqueSlug_loop fuel' db baseSlug
             (baseSlug ++ "-" ++ of_nat counter) (S counter)
      else slug
  end.

(** [generateUniqueSlug]; a table of [n] rows stops the loop within
    [n + 1] turns. *)
Definition generateUniqueSlug (db : Table) (baseSlug : string) : string :=
  generateUniqueSlug_loop (S (length db)) db baseSlug baseSlug 1.

(** One turn of the collecting loop adds a link of the page unless it is
    there already or the batch is full. *)
Definition add_url (targetCount : nat) (articleUrls : list string)
           (url : string) : list string :=
  if negb (in_array url articleUrls) && (length articleUrls <? targetCount)
  then (articleUrls ++ [url])%list
  else articleUrls.

(** Step 2 of [handle]: the [while] loop from [$currentPage] down to 1. *)
Fixpoint collect (w : Web) (targetCount currentPage : nat)
         (articleUrls : list string) : list string :=
  match currentPage with
  | 0 => articleUrls
  | S previous =>
      if length articleUrls <? targetCount then
        match getArticleUrlsFromPage w (pageUrl currentPage) with
        | [] => collect w targetCount previous articleUrls
        | pageArticles =>
            let needed := targetCount - length articleUrls in
            let articleUrls' :=
              if 0 <? needed
              then fold_left (add_url targetCount)
                             (array_slice_last needed pageArticles) articleUrls
              else articleUrls in
            if length articleUrls' <? targetCount
            then collect w targetCount previous articleUrls'
            else articleUrls'
        end
      else articleUrls
  end.

(** Steps 1 and 2 of [handle]: the links the loop has collected. *)
Definition collected (w : Web) : list string :=
  collect w targetCount (findLastPage w) [].

(** Step 3 of [handle]: the batch of article links. *)
Definition locateBatch (w : Web) : list string :=
  firstn targetCount (collected w).

(** Step 4 of [handle], for one link; the state is the table and the two
    counters [$scraped] and [$skipped].  A refused insert is the
    duplicate entry the command counts as skipped; [Article_create]
    raises nothing else for the command to pass on. *)
Definition scrape_one (w : Web) (st : Table * nat * nat) (url : string)
  : Table * nat * nat :=
  let '(db, scraped, skipped) := st in
  if source_url_exists db url then (db, scraped, S skipped)
  else
    match scrapeArticle w url with
    | Some articleData =>
        let baseSlug := Str_slug w (ad_title articleData) in
        let slug := generateUniqueSlug db baseSlug in
        if slug_exists db slug then (db, scraped, S skipped)
        else
          match Article_create db
                  {| a_title := ad_title articleData;
                     a_slug := slug;
                     a_content := ad_content articleData;
                     a_source_url := Some url;
                     a_version := original;
                     a_parent_article_id := None;
                     a_references := None;
                     a_published_at :=
                       Some (match ad_published_at articleData with
                             | Some d => d
                             | None => now w
                             end) |} with
          | Some (_, db') => (db', S scraped, skipped)
          | None => (db, scraped, S skipped)
          end
    | None => st
    end.

(** The outcome of a run of the command. *)
Record Run := {
  exit_code : ExitCode;
  table : Table;
  candidates : list string;
  scraped : nat;
  skipped : nat
}.

(** [handle], with the database in reach: an exception of a query,
    which the command answers with [FAILURE], is not among the cases. *)
Definition handle (w : Web) (db : Table) : Run :=
  match collected w with
  | [] => {| exit_code := FAILURE; table := db; candidates := [];
             scraped := 0; skipped := 0 |}
  | _ =>
      let articleUrls := locateBatch w in
      let '(db', scraped, skipped) :=
        fold_left (scrape_one w) articleUrls (db, 0, 0) in
      {| exit_code := SUCCESS; table := db'; candidates := articleUrls;
         scraped := scraped; skipped := skipped |}
  end.


(** The [k]-th slug [generateUniqueSlug] tries. *)
Definition slug_candidate (baseSlug : string) (k : nat) : string :=
  match k with
  | 0 => baseSlug
  | S _ => baseSlug ++ "-" ++ of_nat k
  end.


End Scraper.

(** ** The script [rewrite-latest.js] (AI rewriter service) *)

Module Rewriter.
Import Str.

(** What a [throw] carries. *)
Inductive Error :=
| HttpError (status : nat) (statusText : string)  (* axios: [error.response] *)
| NetworkError                 (* axios: no [error.response] *)
| URIError                     (* [decodeURIComponent] on a malformed escape *)
| TypeError                    (* a property read on [undefined] or [null] *)
| Err (msg : string).          (* [new Error(msg)] *)

(** [error.message]; of a [TypeError] its start, which the engine
    follows with the property that was read. *)
Definition message (e : Error) : string :=
  match e with
  | HttpError status _ => "Request failed with status code " ++ of_nat status
  | NetworkError => "Network Error"
  | URIError => "URI malformed"
  | TypeError => "Cannot read properties of undefined"
  | Err msg => msg
  end.

Inductive Result (A : Type) :=
| Return (a : A)
| Throw (e : Error).
Arguments Return {A} a.
Arguments Throw {A} e.

(** An entry of [organic_results]. *)
Record OrganicResult := {
  link : option string;
  result_title : option string
}.

(** The results page of the search engine, as the fallback looks at it. *)
Record SearchPage := {
  (** [$(selector)]: the [href] attribute of every element the selector
      matches, in document order *)
  sp_select : string -> list (option string);
  (** for every [.result] element, the [href] of its first link *)
  sp_result_links : list (option string)
}.

(** A fetched article page, as [scrapeArticle] looks at it. *)
Record Page := {
  (** [$(selector).first().text()], [None] when nothing matches *)
  first_text : string -> option string;
  (** [$(selector).text()] *)
  all_text : string -> string;
  (** the text of the first match once its scripts, styles, navigation,
      footers, asides and advertisements are removed *)
  cleaned_text : string -> option string;
  (** the text of [body] once navigation and chrome are removed *)
  body_text : string
}.

(** What the model of one request to a generation backend answers. *)
Inductive Reply :=
| Answer (text : option string)  (* 2xx; the text field, when it is there *)
| Failure (e : Error).

(** The world outside the script.  The backends are asked with the
    number of calls made before and the prompt. *)
Record Env := {
  SERP_API_KEY : option string;
  LLM_PROVIDER : string;
  (** [response.data.organic_results] of the search API *)
  serpapi : string -> Result (option (list OrganicResult));
  (** the HTML results page for a query *)
  duckduckgo : string -> Result SearchPage;
  decodeURIComponent : string -> Result string;
  get_page : string -> Result Page;
  gemini : nat -> string -> Reply;
  openai : nat -> string -> Reply;
  ollama_generate : nat -> string -> Reply;
  (** the article service the script talks to *)
  framework : Store.Framework
}.

(** A scraped reference article. *)
Record Reference := {
  url : string;
  title : string;
  content : string
}.

(** A string JS takes for true in a condition. *)
Definition truthy (s : string) : bool := negb (String.eqb s "").

(** [isBeyondChatsUrl]. *)
Definition isBeyondChatsUrl (url : string) : bool :=
  if negb (truthy url) then false
  else
    let urlLower := toLowerCase url in
    includes "beyondchats.com" urlLower ||
    includes "beyondchats" urlLower ||
    includes "www.beyondchats.com" urlLower.

Definition article_shaped (url : string) : bool :=
  includes "/blog/" url || includes "/article/" url || includes "/post/" url.

(** The filter and the [break] of the loop of [searchWithSerpAPI]. *)
Definition serp_accepts (url : string) : bool :=
  truthy url && negb (isBeyondChatsUrl url) &&
  negb (includes "google.com" url) && negb (includes "youtube.com" url) &&
  article_shaped url.

Fixpoint serp_loop (results : list OrganicResult) (urls : list string)
  : list string :=
  match results with
  | [] => urls
  | result :: rest =>
      match link result with
      | Some u =>
          if serp_accepts u then
            let urls' := (urls ++ [u])%list in
            if 2 <=? length urls' then urls' else serp_loop rest urls'
          else serp_loop rest urls
      | None => serp_loop rest urls
      end
  end.

(** [searchWithSerpAPI]. *)
Definition searchWithSerpAPI (env : Env) (query : string)
  : Result (list string) :=
  match serpapi env query with
  | Throw e => Throw e
  | Return organic_results =>
      Return (serp_loop (match organic_results with
                         | Some rs => rs
                         | None => []
                         end) [])
  end.

(** [n] digits at the head of [s]: what follows them. *)
Fixpoint digits_then (n : nat) (s : string) : option string :=
  match n with
  | 0 => Some s
  | S k =>
      match s with
      | String c s' => if is_digit c then digits_then k s' else None
      | "" => None
      end
  end.

Definition slash : ascii := ascii_of_nat 47.

Definition date_path_here (s : string) : bool :=
  match s with
  | String c s1 =>
      if Ascii.eqb c slash then
        match digits_then 4 s1 with
        | Some (String c2 s2) =>
            if Ascii.eqb c2 slash then
              match digits_then 2 s2 with
              | Some (String c3 _) => Ascii.eqb c3 slash
              | _ => false
              end
            else false
        | _ => false
        end
      else false
  | "" => false
  end.

(** [s.match(/\/\d{4}\/\d{2}\//)] is not null. *)
Fixpoint has_date_path (s : string) : bool :=
  if date_path_here s then true
  else match s with
       | "" => false
       | String _ s' => has_date_path s'
       end.

Definition amp : ascii := ascii_of_nat 38.

(** [s.match(/uddg=([^&]+)/)]: the first group, [None] for [null]. *)
Fixpoint match_uddg (s : string) : option string :=
  match s with
  | "" => None
  | String _ s' =>
      if String.prefix "uddg=" s then
        match split_first amp (drop 5 s) with
        | "" => match_uddg s'
        | group => Some group
        end
      else match_uddg s'
  end.

(** The link behind an [href] of the results page; a decoding error is
    caught and the [href] kept. *)
Definition clean_href (env : Env) (href : string) : string :=
  let cleanUrl :=
    if includes "uddg=" href then
      match match_uddg href with
      | Some group =>
          match decodeURIComponent env group with
          | Return decoded => decoded
          | Throw _ => href
          end
      | None => href
      end
    else href in
  if startsWith "http" cleanUrl then cleanUrl else "https://" ++ cleanUrl.

Definition in_urls (x : string) (urls : list string) : bool :=
  existsb (String.eqb x) urls.

Definition ddg_accepts (cleanUrl : string) : bool :=
  negb (isBeyondChatsUrl cleanUrl) &&
  negb (includes "duckduckgo.com" cleanUrl) &&
  negb (includes "google.com" cleanUrl) &&
  (article_shaped cleanUrl || has_date_path cleanUrl).

(** The callback of [each] in the selector loop, after its guard. *)
Definition visit_link (env : Env) (urls : list string) (href : option string)
  : list string :=
  match href with
  | Some h =>
      if truthy h then
        let cleanUrl := clean_href env h in
        if ddg_accepts cleanUrl && negb (in_urls cleanUrl urls)
        then (urls ++ [cleanUrl])%list
        else urls
      else urls
  | None => urls
  end.

(** [$(selector).each(...)]: the callback returns [false], which ends
    the iteration, once two links are held. *)
Fixpoint each_link (env : Env) (hrefs : list (option string))
         (urls : list string) : list string :=
  match hrefs with
  | [] => urls
  | href :: rest =>
      if 2 <=? length urls then urls
      else each_link env rest (visit_link env urls href)
  end.

Definition linkSelectors : list string :=
  [ ".result__a"; "a.result__a"; ".web-result a"; ".result a" ].

(** The loop over [linkSelectors]: it breaks once two links are held. *)
Fixpoint selector_loop (env : Env) (page : SearchPage)
         (selectors : list string) (urls : list string) : list string :=
  match selectors with
  | [] => urls
  | selector :: rest =>
      let urls' := each_link env (sp_select page selector) urls in
      if 2 <=? length urls' then urls' else selector_loop env page rest urls'
  end.

Definition result_accepts (cleanUrl : string) : bool :=
  negb (isBeyondChatsUrl cleanUrl) &&
  negb (includes "duckduckgo.com" cleanUrl) &&
  article_shaped cleanUrl.

(** The callback of the second pass, over the [.result] elements; here
    a decoding error is not caught. *)
Definition visit_result (env : Env) (urls : list string)
           (resultLink : option string) : Result (list string) :=
  match resultLink with
  | Some h =>
      if truthy h then
        let decoded :=
          if includes "uddg=" h then
            match match_uddg h with
            | Some group => decodeURIComponent env group
            | None => Return h
            end
          else Return h in
        match decoded with
        | Throw e => Throw e
        | Return u =>
            let cleanUrl := if startsWith "http" u then u else "https://" ++ u in
            if result_accepts cleanUrl && negb (in_urls cleanUrl urls)
            then Return (urls ++ [cleanUrl])%list
            else Return urls
        end
      else Return urls
  | None => Return urls
  end.

Fixpoint each_result (env : Env) (links : list (option string))
         (urls : list string) : Result (list string) :=
  match links with
  | [] => Return urls
  | resultLink :: rest =>
      if 2 <=? length urls then Return urls
      else match visit_result env urls resultLink with
           | Throw e => Throw e
           | Return urls' => each_result env rest urls'
           end
  end.

(** [searchWithDuckDuckGo]: whatever is thrown inside is caught and
    answered with the empty list. *)
Definition searchWithDuckDuckGo (env : Env) (query : string) : list string :=
  match duckduckgo env query with
  | Throw _ => []
  | Return page =>
      let urls := selector_loop env page linkSelectors [] in
      let second :=
        if length urls <? 2 then each_result env (sp_result_links page) urls
        else Return urls in
      match second with
      | Throw _ => []
      | Return urls' => firstn 2 urls'
      end
  end.




(** [googleSearch]. *)
Definition googleSearch (env : Env) (query : string) : list string :=
  match SERP_API_KEY env with
  | Some key =>
      if truthy key then
        match searchWithSerpAPI env query with
        | Return urls => urls
        | Throw _ => []
        end
      else searchWithDuckDuckGo env query
  | None => searchWithDuckDuckGo env query
  end.

Definition titleSelectors : list string :=
  [ "h1.entry-title"; "h1.post-title"; "article h1"; "h1";
    ".entry-title"; ".post-title"; "title" ].

Definition pipe : ascii := ascii_of_nat 124.
Definition hyphen : ascii := ascii_of_nat 45.

(** [title.split('|')[0].split('-')[0].trim()]. *)
Definition remove_site_name (title : string) : string :=
  trim (split_first hyphen (split_first pipe title)).

(** The loop over [titleSelectors]. *)
Fixpoint title_loop (page : Page) (selectors : list string) (title : string)
  : string :=
  match selectors with
  | [] => title
  | selector :: rest =>
      match first_text page selector with
      | Some text =>
          let title' := remove_site_name (trim text) in
          if 10 <? String.length title' then title'
          else title_loop page rest title'
      | None => title_loop page rest title
      end
  end.

(** The title of [scrapeArticle]. *)
Definition scrapeArticle_title (page : Page) : string :=
  let title := title_loop page titleSelectors "" in
  if negb (truthy title) || (String.length title <? 5)
  then remove_site_name (trim (all_text page "title"))
  else title.

Definition contentSelectors : list string :=
  [ "article .entry-content"; "article .post-content";
    "article .article-content"; ".entry-content"; ".post-content";
    ".article-content"; "article"; "main article"; "main .content";
    ".content"; "main" ].

(** The loop over [contentSelectors]. *)
Fixpoint content_loop (page : Page) (selectors : list string)
         (content : string) : string :=
  match selectors with
  | [] => content
  | selector :: rest =>
      match cleaned_text page selector with
      | Some text =>
          let content' := trim text in
          if 200 <? String.length content' then content'
          else content_loop page rest content'
      | None => content_loop page rest content
      end
  end.

(** The white space at the head of [s]: the number of line feeds in it
    and the position behind the last of them. *)
Fixpoint newlines_ahead (s : string) (pos count last : nat) : nat * nat :=
  match s with
  | "" => (count, last)
  | String c s' =>
      if is_space c then
        if is_newline c then newlines_ahead s' (S pos) (S count) (S pos)
        else newlines_ahead s' (S pos) count last
      else (count, last)
  end.

(** [s.replace(/\n\s*\n\s*\n/g, '\n\n')]; [skip] characters of a match
    are still to be passed over. *)
Fixpoint collapse_newlines_from (skip : nat) (s : string) : string :=
  match s with
  | "" => ""
  | String c s' =>
      match skip with
      | S k => collapse_newlines_from k s'
      | 0 =>
          if is_newline c then
            let '(count, last) := newlines_ahead s' 0 0 0 in
            if 2 <=? count
            then nl ++ nl ++ collapse_newlines_from last s'
            else String c (collapse_newlines_from 0 s')
          else String c (collapse_newlines_from 0 s')
      end
  end.

Definition is_blank : ascii -> bool := code_in [32; 9].

(** [s.replace(/[ \t]+/g, ' ')]; [in_run] says that the character before
    was a blank. *)
Fixpoint collapse_blanks_from (in_run : bool) (s : string) : string :=
  match s with
  | "" => ""
  | String c s' =>
      if is_blank c then
        if in_run then collapse_blanks_from true s'
        else String (ascii_of_nat 32) (collapse_blanks_from true s')
      else String c (collapse_blanks_from false s')
  end.

Definition clean_up (content : string) : string :=
  trim (collapse_blanks_from false (collapse_newlines_from 0 content)).

Record Scraped := {
  scraped_title : string;
  scraped_content : string
}.

Definition or_untitled (title : string) : string :=
  if truthy title then title else "Untitled Article".

(** [scrapeArticle].  Lengths are counted in bytes, which are the units
    of [.length] for ASCII text. *)
Definition scrapeArticle (env : Env) (url : string) : Result Scraped :=
  match get_page env url with
  | Throw (HttpError status statusText) =>
      Throw (Err ("HTTP " ++ of_nat status ++ ": " ++ statusText))
  | Throw e => Throw (Err ("Failed to scrape article: " ++ message e))
  | Return page =>
      let title := scrapeArticle_title page in
      let content := content_loop page contentSelectors "" in
      let content :=
        if negb (truthy content) || (String.length content <? 200)
        then trim (body_text page)
        else content in
      let content := clean_up content in
      if negb (truthy content) || (String.length content <? 100)
      then Throw (Err ("Failed to scrape article: " ++ "Insufficient content extracted"))
      else Return {| scraped_title := or_untitled title;
                     scraped_content := content |}
  end.

Definition reference_candidate (url : string) : bool :=
  truthy url && negb (isBeyondChatsUrl url) && article_shaped url.

(** The body of the loop of [scrapeReferenceArticles]. *)
Definition scrape_reference (env : Env) (references : list Reference)
           (url : string) : list Reference :=
  match scrapeArticle env url with
  | Return c =>
      if truthy (scraped_content c) && (100 <? String.length (scraped_content c))
      then (references ++ [ {| url := url;
                               title := or_untitled (scraped_title c);
                               content := scraped_content c |} ])%list
      else references
  | Throw _ => references
  end.

(** [scrapeReferenceArticles]. *)
Definition scrapeReferenceArticles (env : Env) (urls : list string)
  : list Reference :=
  let filteredUrls := firstn 2 (filter reference_candidate urls) in
  match filteredUrls with
  | [] => []
  | _ => fold_left (scrape_reference env) filteredUrls []
  end.

(** What the script changes as it runs: the article table behind the
    service, the number of requests made to generation backends, and the
    delays waited between them, in milliseconds. *)
Record World := {
  articles : Store.Table;
  llm_calls : nat;
  waited : list Z
}.

Definition count_call (w : World) : World :=
  {| articles := articles w; llm_calls := S (llm_calls w); waited := waited w |}.

Definition wait (ms : Z) (w : World) : World :=
  {| articles := articles w; llm_calls := llm_calls w;
     waited := (waited w ++ [ms])%list |}.

Definition set_articles (db : Store.Table) (w : World) : World :=
  {| articles := db; llm_calls := llm_calls w; waited := waited w |}.

(** [xs.map((x, i) => f(i, x))]. *)
Fixpoint mapi_from {A B : Type} (i : nat) (f : nat -> A -> B) (xs : list A)
  : list B :=
  match xs with
  | [] => []
  | x :: rest => f i x :: mapi_from (S i) f rest
  end.
Definition mapi {A B : Type} (f : nat -> A -> B) (xs : list A) : list B :=
  mapi_from 0 f xs.

Definition lines (ls : list string) : string := join nl ls.

Definition reference_summary (index : nat) (ref : Reference) : string :=
  lines [ "Reference Article " ++ of_nat (index + 1) ++ ":";
          "Title: " ++ title ref;
          "URL: " ++ url ref;
          "Content Sample: " ++ String.substring 0 800 (content ref) ++ "..." ].

Definition numbered_url (i : nat) (ref : Reference) : string :=
  of_nat (i + 1) ++ ". " ++ url ref.

(** The prompt of [rewriteWithLLM]. *)
Definition prompt_for (originalArticle : Store.Article)
           (references : list Reference) : string :=
  let referenceSummary :=
    join (nl ++ nl ++ "---" ++ nl ++ nl) (mapi reference_summary references) in
  lines [
    "You are an expert content writer and SEO specialist. Your task is to rewrite the following article to improve its quality, formatting, and match the style of top-ranking articles on Google.";
    "";
    "INSTRUCTIONS:";
    "1. Analyze the writing style, tone, and formatting of the reference articles";
    "2. Rewrite the original article to match that style while preserving all key information";
    "3. Improve formatting with proper headings, paragraphs, and structure";
    "4. Use original phrasing - DO NOT copy sentences from reference articles";
    "5. Maintain the original article's intent and core message";
    "6. Make the content more engaging and professional";
    "7. Add a " ++ dq ++ "References" ++ dq ++ " section at the very bottom with proper citations";
    "";
    "Original Article to Rewrite:";
    "Title: " ++ Store.title originalArticle;
    "";
    "Content:";
    Store.content originalArticle;
    "";
    "Reference Articles (Study their style, tone, and formatting):";
    referenceSummary;
    "";
    "IMPORTANT:";
    "- The rewritten article must be original and not plagiarized";
    "- Match the professional tone and formatting style of the reference articles";
    "- Preserve all important information from the original article";
    "- Add a " ++ dq ++ "References" ++ dq ++ " section at the end with these URLs:";
    join nl (mapi numbered_url references);
    "";
    "Now rewrite the article:" ].

Definition system_prompt : string :=
  "You are an expert content writer specializing in article rewriting and SEO optimization.".

(** [error.response?.status === 429]. *)
Definition is_rate_limit (e : Error) : bool :=
  match e with
  | HttpError status _ => status =? 429
  | _ => false
  end.

(** The text sent to a backend that takes one text. *)
Definition request_text (prompt : string) : string :=
  system_prompt ++ nl ++ nl ++ prompt.

(** [Math.pow(2, i) * 10000], in milliseconds. *)
Definition backoff (i : nat) : Z := (2 ^ Z.of_nat i * 10000)%Z.

(** The [try] block of [rewriteWithGoogleGemini]: one request. *)
Definition gemini_attempt (env : Env) (prompt : string) (w : World)
  : Result string * World :=
  (match gemini env (llm_calls w) (request_text prompt) with
   | Failure e => Throw e
   | Answer (Some text) =>
       if truthy text then Return (trim text)
       else Throw (Err "Invalid response from Google Gemini API")
   | Answer None => Throw (Err "Invalid response from Google Gemini API")
   end,
   count_call w).

(** The [for] loop of [rewriteWithGoogleGemini]; [remaining] is
    [retries - i].  A loop that runs out returns [undefined], which is
    [None]. *)
Fixpoint gemini_loop (env : Env) (prompt : string) (retries remaining i : nat)
         (w : World) : Result (option string) * World :=
  match remaining with
  | 0 => (Return None, w)
  | S remaining' =>
      match gemini_attempt env prompt w with
      | (Return text, w1) => (Return (Some text), w1)
      | (Throw e, w1) =>
          if is_rate_limit e && (i <? retries - 1) then
            let waitTime := backoff i in
            gemini_loop env prompt retries remaining' (S i) (wait waitTime w1)
          else (Throw e, w1)
      end
  end.

(** [rewriteWithGoogleGemini(prompt, retries = 3)]. *)
Definition rewriteWithGoogleGemini (env : Env) (prompt : string)
           (retries : nat) (w : World) : Result (option string) * World :=
  gemini_loop env prompt retries retries 0 w.

(** [rewriteWithOpenAI]: one call of the client library. *)
Definition rewriteWithOpenAI (env : Env) (prompt : string) (w : World)
  : Result (option string) * World :=
  (match openai env (llm_calls w) prompt with
   | Failure e => Throw e
   | Answer (Some text) => Return (Some (trim text))
   | Answer None => Throw TypeError
   end,
   count_call w).

(** [rewriteWithOllama]: one request. *)
Definition rewriteWithOllama (env : Env) (prompt : string) (w : World)
  : Result (option string) * World :=
  (match ollama_generate env (llm_calls w) (request_text prompt) with
   | Failure e => Throw e
   | Answer (Some text) => Return (Some (trim text))
   | Answer None => Throw TypeError
   end,
   count_call w).

Definition cited (i : nat) (ref : Reference) : string :=
  of_nat (i + 1) ++ ". [" ++ title ref ++ "](" ++ url ref ++ ")".

(** The section appended to a text that does not mention references. *)
Definition references_section (references : list Reference) : string :=
  nl ++ nl ++ "## References" ++ nl ++ nl ++ join nl (mapi cited references).

(** The post-validation of [rewriteWithLLM]. *)
Definition ensure_references (rewrittenContent : string)
           (references : list Reference) : string :=
  if negb (includes "references" (toLowerCase rewrittenContent))
  then rewrittenContent ++ references_section references
  else rewrittenContent.

Definition dispatch (env : Env) (prompt : string) (w : World)
  : Result (option string) * World :=
  if String.eqb (LLM_PROVIDER env) "google" then rewriteWithGoogleGemini env prompt 3 w
  else if String.eqb (LLM_PROVIDER env) "openai" then rewriteWithOpenAI env prompt w
  else if String.eqb (LLM_PROVIDER env) "ollama" then rewriteWithOllama env prompt w
  else (Throw (Err ("Unsupported LLM provider: " ++ LLM_PROVIDER env)), w).

Definition llm_failed (e : Error) : Error :=
  Err ("LLM rewriting failed: " ++ message e).

(** [rewriteWithLLM]. *)
Definition rewriteWithLLM (env : Env) (originalArticle : Store.Article)
           (references : list Reference) (w : World) : Result string * World :=
  match dispatch env (prompt_for originalArticle references) w with
  | (Return (Some rewrittenContent), w') =>
      (Return (ensure_references rewrittenContent references), w')
  | (Return None, w') => (Throw (llm_failed TypeError), w')
  | (Throw e, w') => (Throw (llm_failed e), w')
  end.

(** [fetchLatestArticle]: [GET /api/articles/latest], [None] for 404. *)
Definition fetchLatestArticle (w : World) : option Store.Article :=
  Store.latest (articles w).

(** [publishArticle]: [POST /api/articles]; a reply outside 2xx is thrown
    by the HTTP client and wrapped. *)
Definition publishArticle (env : Env) (articleData : Store.Request) (w : World)
  : Result Store.Article * World :=
  match Store.store (framework env) (articles w) articleData with
  | (Store.Created a, db) => (Return a, set_articles db w)
  | (Store.ValidationFailed, db) =>
      (Throw (Err ("Failed to publish article: "
                   ++ message (HttpError 422 "Unprocessable Content"))),
       set_articles db w)
  | (Store.ServerError, db) =>
      (Throw (Err ("Failed to publish article: "
                   ++ message (HttpError 500 "Internal Server Error"))),
       set_articles db w)
  end.

(** The objects [rewriteLatest] returns. *)
Inductive Outcome :=
| NoArticles       (* success: false, message: 'No articles found' *)
| NoReferences     (* success: false, message: 'No reference articles found' *)
| Rewritten (originalArticleId rewrittenArticleId : nat).  (* success: true *)

Definition success (o : Outcome) : bool :=
  match o with
  | Rewritten _ _ => true
  | _ => false
  end.

(** The body of the request that publishes a rewrite. *)
Definition rewrite_request (article : Store.Article) (rewrittenContent : string)
           (references : list Reference) : Store.Request :=
  {| Store.req_title := Some (Store.title article ++ " (Rewritten)");
     Store.req_content := Some rewrittenContent;
     Store.req_source_url := None;
     Store.req_version := Some "rewritten";
     Store.req_parent_article_id := Some (Store.id article);
     Store.req_references := Some (map url references);
     Store.req_published_at := None |}.

(** [rewriteLatest]. *)
Definition rewriteLatest (env : Env) (w : World) : Result Outcome * World :=
  match fetchLatestArticle w with
  | None => (Return NoArticles, w)
  | Some article =>
      let searchResults := googleSearch env (Store.title article) in
      let references := scrapeReferenceArticles env searchResults in
      match references with
      | [] => (Return NoReferences, w)
      | _ =>
          match rewriteWithLLM env article references w with
          | (Throw e, w1) => (Throw e, w1)
          | (Return rewrittenContent, w1) =>
              match publishArticle env
                      (rewrite_request article rewrittenContent references) w1 with
              | (Throw e, w2) => (Throw e, w2)
              | (Return published, w2) =>
                  (Return (Rewritten (Store.id article) (Store.id published)), w2)
              end
          end
      end
  end.

End Rewriter.

(** ** Sample inputs *)

Module Samples.
Import Str.

(** *** The article service *)

Definition laravel : Store.Framework :=
  {| Store.is_url := startsWith "http";
     Store.is_date := fun _ => true;
     Store.model_slug := fun db _ => "article-" ++ of_nat (Store.next_id db) |}.

Definition chatbots_article : Store.Article :=
  {| Store.id := 1;
     Store.title := "Chatbots for small business";
     Store.slug := "chatbots-for-small-business";
     Store.content := "Chatbots help small teams answer customers.";
     Store.source_url := Some "https://beyondchats.com/blogs/chatbots-for-small-business/";
     Store.version := Store.original;
     Store.is_rewritten := false;
     Store.parent_article_id := None;
     Store.references := None;
     Store.published_at := Some "2025-12-21 06:49:06" |}.

Definition one_article : Store.Table := [chatbots_article].

Definition rewrite_post : Store.Request :=
  {| Store.req_title := Some "Chatbots for small business (Rewritten)";
     Store.req_content := Some "Chatbots let a small team answer every customer.";
     Store.req_source_url := None;
     Store.req_version := Some "rewritten";
     Store.req_parent_article_id := Some 1;
     Store.req_references := Some ["https://example.com/blog/chatbots"];
     Store.req_published_at := None |}.

(** *** The listing and its article pages *)

Definition seven_links : list string :=
  [ "https://beyondchats.com/blogs/one/";
    "https://beyondchats.com/blogs/two/";
    "https://beyondchats.com/blogs/three/";
    "https://beyondchats.com/blogs/four/";
    "https://beyondchats.com/blogs/five/";
    "https://beyondchats.com/blogs/six/";
    "https://beyondchats.com/blogs/seven/" ].

(** A listing page whose entry titles link to the given articles. *)
Definition listing_of (links : list string) : Scraper.ListingPage :=
  {| Scraper.lp_select := fun selector =>
       if String.eqb selector ".entries article.entry-card .entry-title a"
       then map Some links else [];
     Scraper.lp_regex_hrefs := [] |}.

(** A blog of one listing page, none of whose articles can be fetched. *)
Definition unreadable_blog (links : list string) : Scraper.Web :=
  {| Scraper.last_page_scan := Some 1;
     Scraper.get_listing := fun pageUrl =>
       if String.eqb pageUrl Scraper.baseUrl then Some (listing_of links) else None;
     Scraper.get_article := fun _ => None;
     Scraper.cleanHtml := fun html => html;
     Scraper.Str_slug := toLowerCase;
     Scraper.now := "2025-12-22 02:00:00" |}.

(** A page whose only title is its [title] element. *)
Definition hyphenated_title : string := "AI-powered chatbots - BeyondChats".

Definition php_title_only : Scraper.ArticlePage :=
  {| Scraper.ap_heading := None;
     Scraper.ap_title := Some hyphenated_title;
     Scraper.ap_content_html := None;
     Scraper.ap_main_html := None;
     Scraper.ap_published_at := None |}.

Definition sentence : string :=
  "Support chatbots answer the common questions of customers at any hour of the day. ".

Definition long_text : string := sentence ++ sentence ++ sentence ++ sentence.

Definition title_only : Rewriter.Page :=
  {| Rewriter.first_text := fun selector =>
       if String.eqb selector "title" then Some hyphenated_title else None;
     Rewriter.all_text := fun selector =>
       if String.eqb selector "title" then hyphenated_title else "";
     Rewriter.cleaned_text := fun _ => None;
     Rewriter.body_text := long_text |}.

(** A reference page with a heading and an article body. *)
Definition guide_page : Rewriter.Page :=
  {| Rewriter.first_text := fun selector =>
       if String.eqb selector "h1" then Some "A guide to support chatbots" else None;
     Rewriter.all_text := fun _ => "";
     Rewriter.cleaned_text := fun selector =>
       if String.eqb selector "article" then Some long_text else None;
     Rewriter.body_text := long_text |}.

(** *** The search engine *)

Definition first_hit : string := "https://example.com/blog/chatbots".
Definition second_hit : string := "https://example.org/post/support-bots".

(** A results page: one link of class [result__a], and one more link
    inside a [web-result] block. *)
Definition two_blocks : Rewriter.SearchPage :=
  {| Rewriter.sp_select := fun selector =>
       if String.eqb selector ".result__a" then [Some first_hit]
       else if String.eqb selector "a.result__a" then [Some first_hit]
       else if String.eqb selector ".web-result a" then [Some second_hit]
       else [];
     Rewriter.sp_result_links := [] |}.

Definition too_many_requests : Rewriter.Error :=
  Rewriter.HttpError 429 "Too Many Requests".


(** A backend that does not mention them at all. *)
Definition plain_text : string :=
  "Chatbots let a small team answer every customer.".

(** The search API knows two articles, every page is [guide_page], and
    the backend named by [provider] answers [text] unless it is rate
    limited, which it is for the first [limited] requests. *)
Definition world_of (provider : string) (limited : nat) (text : string)
  : Rewriter.Env :=
  let reply := fun n (_ : string) =>
    if n <? limited then Rewriter.Failure too_many_requests
    else Rewriter.Answer (Some text) in
  {| Rewriter.SERP_API_KEY := Some "key";
     Rewriter.LLM_PROVIDER := provider;
     Rewriter.serpapi := fun _ =>
       Rewriter.Return
         (Some [ {| Rewriter.link := Some first_hit;
                    Rewriter.result_title := Some "Chatbots" |};
                 {| Rewriter.link := Some second_hit;
                    Rewriter.result_title := None |} ]);
     Rewriter.duckduckgo := fun _ => Rewriter.Return two_blocks;
     Rewriter.decodeURIComponent := fun s => Rewriter.Return s;
     Rewriter.get_page := fun _ => Rewriter.Return guide_page;
     Rewriter.gemini := reply;
     Rewriter.openai := reply;
     Rewriter.ollama_generate := reply;
     Rewriter.framework := laravel |}.

(** A world without a key for the search API, with nothing to scrape
    behind the links, and with no backend in reach. *)
Definition fallback_world : Rewriter.Env :=
  {| Rewriter.SERP_API_KEY := None;
     Rewriter.LLM_PROVIDER := "ollama";
     Rewriter.serpapi := fun _ => Rewriter.Throw Rewriter.NetworkError;
     Rewriter.duckduckgo := fun _ => Rewriter.Return two_blocks;
     Rewriter.decodeURIComponent := fun s => Rewriter.Return s;
     Rewriter.get_page := fun _ => Rewriter.Throw Rewriter.NetworkError;
     Rewriter.gemini := fun _ _ => Rewriter.Failure Rewriter.NetworkError;
     Rewriter.openai := fun _ _ => Rewriter.Failure Rewriter.NetworkError;
     Rewriter.ollama_generate := fun _ _ => Rewriter.Failure Rewriter.NetworkError;
     Rewriter.framework := laravel |}.

Definition start : Rewriter.World :=
  {| Rewriter.articles := one_article;
     Rewriter.llm_calls := 0;
     Rewriter.waited := [] |}.

Definition two_references : list Rewriter.Reference :=
  Rewriter.scrapeReferenceArticles (world_of "ollama" 0 plain_text)
                                   [first_hit; second_hit].

End Samples.

(** ** What a sound table is *)

Module Integrity.
Import Store.

(** The source links of the rows that have one. *)
Definition source_urls (db : Table) : list string :=
  flat_map (fun a => match source_url a with
                     | Some u => [u]
                     | None => []
                     end) db.

Definition parent_exists (db : Table) (a : Article) : Prop :=
  match parent_article_id a with
  | Some p => exists parent, find db p = Some parent
  | None => True
  end.

(** What the migration asks of the table: the key and the two [unique()]
    columns hold no value twice, keys count from 1, and the foreign key
    [parent_article_id] names a row. *)
Record sound (db : Table) : Prop := {
  keys_unique : NoDup (map id db);
  keys_positive : Forall (fun a => 0 < id a) db;
  slugs_unique : NoDup (map slug db);
  links_unique : NoDup (source_urls db);
  parents_exist : Forall (parent_exists db) db
}.

(** The row as an UPDATE flagging the parent with key [p] leaves it. *)
Definition flag_if (p : nat) (a : Article) : Article :=
  if id a =? p then set_is_rewritten a else a.

End Integrity.

(** ** What the scraping command collects and stores *)

Module Collected.
Import Str Store Scraper.

(** A link the command takes for an article: under [/blogs/], and no
    pagination, category, tag, author or anchor link. *)
Definition article_link (url : string) : bool :=
  includes "/blogs/" url && negb (excluded_link url).

(** The links one selector adds to an empty list. *)
Definition selector_hits (page : ListingPage) (selector : string) : list string :=
  fst (fold_left visit_node (lp_select page selector) ([], 0)).

(** The links of the regex fallback. *)
Definition regex_hits (page : ListingPage) : list string :=
  fold_left visit_match (lp_regex_hrefs page) [].

(** The links of the first selector that adds any. *)
Fixpoint first_hits (page : ListingPage) (selectors : list string) : list string :=
  match selectors with
  | [] => []
  | selector :: rest =>
      match selector_hits page selector with
      | [] => first_hits page rest
      | hits => hits
      end
  end.

(** A link written from the root of the site, [/blogs/...], with no
    second [/blogs/] behind the first. *)
Definition root_relative (href : string) : Prop :=
  exists slug, href = "/blogs/" ++ slug /\ includes "/blogs/" ("/" ++ slug) = false.

(** A row as [handle] stores it for one of the links [urls]. *)
Definition scraped_row (w : Web) (urls : list string) (row : Article) : Prop :=
  version row = original /\
  is_rewritten row = false /\
  parent_article_id row = None /\
  references row = None /\
  exists url articleData,
    In url urls /\
    source_url row = Some url /\
    scrapeArticle w url = Some articleData /\
    title row = ad_title articleData /\
    content row = ad_content articleData /\
    truthy (title row) = true /\
    100 <= String.length (content row).

End Collected.

(** ** The articles a run works through *)

Module Pipeline.

(** The articles that wait for a rewrite: the rows [latest] chooses
    from. *)
Definition waiting (db : Store.Table) : list Store.Article :=
  filter Store.unrewritten db.

End Pipeline.

(** ** The page that shows an article *)

Module Frontend.
Import Str.

(** [content.split('\n')]. *)
Fixpoint split_lines (s : string) : list string :=
  match s with
  | "" => [""]
  | String c s' =>
      if is_newline c then "" :: split_lines s'
      else match split_lines s' with
           | [] => [String c ""]
           | piece :: rest => String c piece :: rest
           end
  end.

(** The callback of [map]: [&&] gives its left side when that is empty. *)
Definition paragraph (para : string) : string :=
  if Rewriter.truthy (trim para)
  then "<p class=" ++ dq ++ "mb-4" ++ dq ++ ">" ++ trim para ++ "</p>"
  else trim para.

(** [formatContent], whose result the page sets as inner HTML. *)
Definition formatContent (content : string) : string :=
  join "" (filter Rewriter.truthy (map paragraph (split_lines content))).

End Frontend.

(** ** The fallback search, said in one piece *)

Module Searched.
Import Str Rewriter.








End Searched.

(** ** Plain text *)

Module Plain.
Import Str.

(** A text of ASCII characters only.  On such a text a byte is a
    character and a UTF-16 unit, and the white space of JS [trim] and
    of [\s] is the six characters of [is_space]. *)
Definition ascii_only (s : string) : bool :=
  negb (has_char (fun c => 128 <=? nat_of_ascii c) s).

(** A page all of whose texts are plain. *)
Definition ascii_page (page : Rewriter.Page) : Prop :=
  (forall selector text,
      Rewriter.first_text page selector = Some text -> ascii_only text = true) /\
  (forall selector, ascii_only (Rewriter.all_text page selector) = true) /\
  (forall selector text,
      Rewriter.cleaned_text page selector = Some text -> ascii_only text = true) /\
  ascii_only (Rewriter.body_text page) = true.

End Plain.

(** ** More sample inputs *)

Module MoreSamples.
Import Str.

(** A listing that writes its one article link from the root of the site. *)
Definition rooted_listing : Scraper.ListingPage :=
  {| Scraper.lp_select := fun selector =>
       if String.eqb selector ".entries article.entry-card .entry-title a"
       then [Some "/blogs/one/"] else [];
     Scraper.lp_regex_hrefs := ["/blogs/one/"] |}.

Definition rooted_blog : Scraper.Web :=
  {| Scraper.last_page_scan := Some 1;
     Scraper.get_listing := fun _ => Some rooted_listing;
     Scraper.get_article := fun _ => None;
     Scraper.cleanHtml := fun html => html;
     Scraper.Str_slug := toLowerCase;
     Scraper.now := "2025-12-22 02:00:00" |}.

(** A blog of two listing pages: two articles on the last one, seven on
    the first; every article page has a heading and a long body. *)
Definition last_page_links : list string :=
  [ "https://beyondchats.com/blogs/eight/";
    "https://beyondchats.com/blogs/nine/" ].

Definition readable_page : Scraper.ArticlePage :=
  {| Scraper.ap_heading := Some "  Support chatbots  ";
     Scraper.ap_title := Some Samples.hyphenated_title;
     Scraper.ap_content_html := Some Samples.long_text;
     Scraper.ap_main_html := None;
     Scraper.ap_published_at := None |}.

Definition two_page_blog : Scraper.Web :=
  {| Scraper.last_page_scan := Some 2;
     Scraper.get_listing := fun pageUrl =>
       if String.eqb pageUrl Scraper.baseUrl
       then Some (Samples.listing_of Samples.seven_links)
       else if String.eqb pageUrl "https://beyondchats.com/blogs/page/2/"
       then Some (Samples.listing_of last_page_links)
       else None;
     Scraper.get_article := fun _ => Some readable_page;
     Scraper.cleanHtml := fun html => html;
     Scraper.Str_slug := toLowerCase;
     Scraper.now := "2025-12-22 02:00:00" |}.

(** A blog whose listing pages cannot be fetched. *)
Definition unreachable_blog : Scraper.Web :=
  {| Scraper.last_page_scan := Some 3;
     Scraper.get_listing := fun _ => None;
     Scraper.get_article := fun _ => Some readable_page;
     Scraper.cleanHtml := fun html => html;
     Scraper.Str_slug := toLowerCase;
     Scraper.now := "2025-12-22 02:00:00" |}.

(** An article whose title has 250 bytes. *)
Definition wordy_article : Store.Article :=
  {| Store.id := 1;
     Store.title := String.substring 0 250 Samples.long_text;
     Store.slug := "support-chatbots";
     Store.content := "Chatbots help small teams answer customers.";
     Store.source_url := Some "https://beyondchats.com/blogs/support-chatbots/";
     Store.version := Store.original;
     Store.is_rewritten := false;
     Store.parent_article_id := None;
     Store.references := None;
     Store.published_at := Some "2025-12-21 06:49:06" |}.

Definition wordy_start : Rewriter.World :=
  {| Rewriter.articles := [wordy_article];
     Rewriter.llm_calls := 0;
     Rewriter.waited := [] |}.

(** A results page whose one result block leads through a redirect
    that cannot be decoded. *)
Definition broken_redirect : string :=
  "//duckduckgo.com/l/?uddg=%E0%A4%A&rut=0c1".

Definition page_with_broken_redirect : Rewriter.SearchPage :=
  {| Rewriter.sp_select := fun selector =>
       if String.eqb selector ".result__a" then [Some Samples.first_hit] else [];
     Rewriter.sp_result_links := [Some broken_redirect] |}.

Definition strict_world : Rewriter.Env :=
  {| Rewriter.SERP_API_KEY := None;
     Rewriter.LLM_PROVIDER := "ollama";
     Rewriter.serpapi := fun _ => Rewriter.Throw Rewriter.NetworkError;
     Rewriter.duckduckgo := fun _ => Rewriter.Return page_with_broken_redirect;
     Rewriter.decodeURIComponent := fun s =>
       if includes "%E0%A4%A" s then Rewriter.Throw Rewriter.URIError
       else Rewriter.Return s;
     Rewriter.get_page := fun _ => Rewriter.Return Samples.guide_page;
     Rewriter.gemini := fun _ _ => Rewriter.Failure Rewriter.NetworkError;
     Rewriter.openai := fun _ _ => Rewriter.Failure Rewriter.NetworkError;
     Rewriter.ollama_generate := fun _ _ => Rewriter.Answer (Some Samples.plain_text);
     Rewriter.framework := Samples.laravel |}.

(** A Gemini backend that is rate limited once and then out of order. *)
Definition server_error : Rewriter.Error :=
  Rewriter.HttpError 500 "Internal Server Error".

Definition limited_then_down : Rewriter.Env :=
  {| Rewriter.SERP_API_KEY := Some "key";
     Rewriter.LLM_PROVIDER := "google";
     Rewriter.serpapi := fun _ => Rewriter.Throw Rewriter.NetworkError;
     Rewriter.duckduckgo := fun _ => Rewriter.Return Samples.two_blocks;
     Rewriter.decodeURIComponent := fun s => Rewriter.Return s;
     Rewriter.get_page := fun _ => Rewriter.Return Samples.guide_page;
     Rewriter.gemini := fun n _ =>
       if n <? 1 then Rewriter.Failure Samples.too_many_requests
       else Rewriter.Failure server_error;
     Rewriter.openai := fun _ _ => Rewriter.Failure Rewriter.NetworkError;
     Rewriter.ollama_generate := fun _ _ => Rewriter.Failure Rewriter.NetworkError;
     Rewriter.framework := Samples.laravel |}.




End MoreSamples.

(* ===================================================================== *)
(** * Part II: properties                                                 *)
(* ===================================================================== *)

Unset Implicit Arguments.

(** ** Strings *)

Module StrFacts.
Import Str.

Lemma append_assoc (a b c : string) : (a ++ b) ++ c = a ++ b ++ c.
Proof. induction a as [|x a IH]; simpl; [reflexivity | now rewrite IH]. Qed.

Lemma append_empty_r (a : string) : a ++ "" = a.
Proof. induction a as [|x a IH]; simpl; [reflexivity | now rewrite IH]. Qed.

Lemma length_append (a b : string) :
  String.length (a ++ b) = String.length a + String.length b.
Proof. induction a as [|x a IH]; simpl; [reflexivity | now rewrite IH]. Qed.

Lemma append_inj_l (a b c : string) : a ++ b = a ++ c -> b = c.
Proof.
  induction a as [|x a IH]; simpl; intros H; [exact H|].
  injection H as H. now apply IH.
Qed.

Lemma prefix_append (p s : string) : String.prefix p (p ++ s) = true.
Proof.
  induction p as [|x p IH]; simpl.
  - now destruct s.
  - destruct (ascii_dec x x) as [_|ne]; [exact IH | now destruct ne].
Qed.

Lemma prefix_split (p s : string) :
  String.prefix p s = true -> exists post, s = p ++ post.
Proof.
  revert s; induction p as [|x p IH]; intros s H.
  - now exists s.
  - destruct s as [|y s]; simpl in H; [discriminate|].
    destruct (ascii_dec x y) as [e|_]; [subst y|discriminate].
    destruct (IH s H) as [post e]. subst s. now exists post.
Qed.

Lemma includes_cons (sub : string) (c : ascii) (s : string) :
  includes sub (String c s)
  = if String.prefix sub (String c s) then true else includes sub s.
Proof. reflexivity. Qed.

(** [includes] decides [contains]. *)
Lemma includes_contains (sub s : string) :
  includes sub s = true <-> contains sub s.
Proof.
  split.
  - induction s as [|c s IH]; intros H.
    + destruct sub as [|x sub]; [now exists "", "" | discriminate].
    + rewrite includes_cons in H.
      destruct (String.prefix sub (String c s)) eqn:E.
      * destruct (prefix_split _ _ E) as [post e]. now exists "", post.
      * destruct (IH H) as (pre & post & e). subst s.
        now exists (String c pre), post.
  - intros (pre & post & e). subst s.
    induction pre as [|c pre IH].
    + change ("" ++ sub ++ post) with (sub ++ post).
      destruct (sub ++ post) as [|c r] eqn:E.
      * destruct sub; [reflexivity | discriminate].
      * rewrite includes_cons, <- E, prefix_append. reflexivity.
    + change (String c pre ++ sub ++ post) with (String c (pre ++ sub ++ post)).
      rewrite includes_cons, IH. now destruct (String.prefix sub _).
Qed.

Lemma includes_false (sub s : string) :
  includes sub s = false <-> ~ contains sub s.
Proof.
  rewrite <- includes_contains. now destruct (includes sub s).
Qed.

Lemma contains_longer (a b c s : string) :
  contains (a ++ b ++ c) s -> contains b s.
Proof.
  intros (pre & post & ->). exists (pre ++ a), (c ++ post).
  now rewrite !append_assoc.
Qed.

Lemma contains_append_r (sub a b : string) : contains sub b -> contains sub (a ++ b).
Proof.
  intros (pre & post & ->). exists (a ++ pre), post. now rewrite append_assoc.
Qed.



End StrFacts.

(** ** The article table and the controller *)

Module StoreFacts.
Import Str Store.
Local Open Scope list_scope.

Lemma find_some_id (db : Table) (p : nat) (x : Article) :
  find db p = Some x -> In x db /\ id x = p.
Proof.
  unfold find. intros H. apply find_some in H as [Hin Hid].
  split; [exact Hin | now apply Nat.eqb_eq].
Qed.

Lemma id_below_next (db : Table) (x : Article) : In x db -> id x < next_id db.
Proof.
  intros H. unfold next_id. apply Nat.lt_succ_r.
  induction db as [|y db IH]; [contradiction|].
  simpl. destruct H as [->|H]; [lia|]. specialize (IH H). lia.
Qed.

Lemma find_app_some (db extra : Table) (p : nat) (x : Article) :
  find db p = Some x -> find (db ++ extra) p = Some x.
Proof.
  unfold find. induction db as [|y db IH]; simpl; [discriminate|].
  destruct (id y =? p); [trivial | exact IH].
Qed.

Lemma find_mark_rewritten (db : Table) (p : nat) :
  find (mark_rewritten db p) p = option_map set_is_rewritten (find db p).
Proof.
  unfold find, mark_rewritten. induction db as [|y db IH]; simpl; [reflexivity|].
  destruct (id y =? p) eqn:E; simpl; rewrite E; [reflexivity | exact IH].
Qed.

Lemma mark_rewritten_app (db extra : Table) (p : nat) :
  mark_rewritten (db ++ extra) p = (mark_rewritten db p ++ mark_rewritten extra p)%list.
Proof. apply map_app. Qed.

Lemma mark_rewritten_other (db : Table) (p : nat) :
  (forall x, In x db -> id x <> p) -> mark_rewritten db p = db.
Proof.
  intros H. unfold mark_rewritten. rewrite <- (map_id db) at 2.
  apply map_ext_in. intros x Hx.
  destruct (id x =? p) eqn:E; [|reflexivity].
  apply Nat.eqb_eq in E. now destruct (H x Hx).
Qed.

Lemma mark_rewritten_nth (db : Table) (p i : nat) (x : Article) :
  nth_error db i = Some x -> id x <> p ->
  nth_error (mark_rewritten db p) i = Some x.
Proof.
  intros H Hne. unfold mark_rewritten. rewrite nth_error_map, H. simpl.
  apply Nat.eqb_neq in Hne. now rewrite Hne.
Qed.

Lemma mark_rewritten_titles (db : Table) (p : nat) :
  map title (mark_rewritten db p) = map title db.
Proof.
  unfold mark_rewritten. rewrite map_map. apply map_ext.
  intros x. now destruct (id x =? p).
Qed.

Lemma nth_error_app_left {A : Type} (l extra : list A) (i : nat) (x : A) :
  nth_error l i = Some x -> nth_error (l ++ extra) i = Some x.
Proof.
  intros H. rewrite nth_error_app1; [exact H|].
  apply nth_error_Some. now rewrite H.
Qed.

(** What a created row takes from the attributes. *)
Lemma Article_create_some (db db1 : Table) (attrs : Attributes) (a : Article) :
  Article_create db attrs = Some (a, db1) ->
  db1 = (db ++ [a])%list /\ id a = next_id db /\ title a = a_title attrs /\
  version a = a_version attrs /\
  parent_article_id a = a_parent_article_id attrs /\ is_rewritten a = false.
Proof.
  unfold Article_create. destruct (_ || _); [discriminate|].
  intros H. injection H as <- <-. repeat split.
Qed.

(** What validated attributes take from the request. *)
Lemma validate_some (fw : Framework) (db : Table) (r : Request) (attrs : Attributes) :
  validate fw db r = Some attrs ->
  req_title r = Some (a_title attrs) /\
  String.length (a_title attrs) <= 255 /\
  (exists v, req_version r = Some v /\ parse_version v = Some (a_version attrs)) /\
  a_parent_article_id attrs = req_parent_article_id r /\
  (forall p, req_parent_article_id r = Some p -> exists parent, find db p = Some parent).
Proof.
  unfold validate.
  destruct (req_title r) as [t|]; [|discriminate].
  destruct (req_content r) as [c|]; [|discriminate].
  destruct (req_version r) as [v|]; [|discriminate].
  destruct (parse_version v) as [ver|] eqn:Ever; [|discriminate].
  match goal with |- (if ?b then _ else _) = _ -> _ => destruct b eqn:Eok end;
    [|discriminate].
  intros H. injection H as <-. simpl.
  repeat (apply andb_prop in Eok as [Eok ?]).
  repeat split.
  - apply Nat.leb_le. assumption.
  - now exists v.
  - intros p Hp. rewrite Hp in *.
    destruct (find db p) as [parent|]; [now exists parent | discriminate].
Qed.

Lemma parse_version_rewritten (v : string) (ver : Version) :
  parse_version v = Some ver -> v = "rewritten" -> ver = rewritten.
Proof. intros H ->. now injection H. Qed.

Lemma parse_version_original (v : string) (ver : Version) :
  parse_version v = Some ver -> v = "original" -> ver = original.
Proof. intros H ->. now injection H. Qed.

(** The table after [store], by cases of the reply. *)
Lemma store_table (fw : Framework) (db db' : Table) (r : Request) (resp : Response) :
  store fw db r = (resp, db') ->
  match resp with
  | Created a =>
      exists attrs, validate fw db r = Some attrs /\
        Article_create db attrs = Some (a, db ++ [a]) /\
        db' = match parent_article_id a with
              | Some p =>
                  if is_rewritten_version (version a) && negb (p =? 0)
                  then mark_rewritten db p ++ [a]
                  else db ++ [a]
              | None => db ++ [a]
              end
  | _ => db' = db
  end.
Proof.
  unfold store.
  destruct (validate fw db r) as [attrs|] eqn:Ev;
    [|intros H; injection H as <- <-; reflexivity].
  destruct (Article_create db attrs) as [[a db1]|] eqn:Ec;
    [|intros H; injection H as <- <-; reflexivity].
  intros H. injection H as <- <-.
  destruct (Article_create_some _ _ _ _ Ec) as (-> & Hid & _ & _ & Hpar & _).
  destruct (validate_some _ _ _ _ Ev) as (_ & _ & _ & Hp & Hex).
  exists attrs. split; [reflexivity|]. split; [exact Ec|].
  destruct (parent_article_id a) as [p|] eqn:Epar; [|reflexivity].
  destruct (is_rewritten_version (version a) && negb (p =? 0)); [|reflexivity].
  rewrite <- Hpar in Hp. symmetry in Hp.
  destruct (Hex p Hp) as [parent Hparent].
  rewrite (find_app_some _ [a] _ _ Hparent).
  destruct (find_some_id _ _ _ Hparent) as [Hin Hidp]. rewrite Hidp.
  rewrite mark_rewritten_app. f_equal.
  apply mark_rewritten_other. intros x [<-|[]].
  pose proof (id_below_next _ _ Hin). lia.
Qed.

(** C7.  A [POST /api/articles] that creates a rewritten article whose
    [parent_article_id] names a row of the table sets [is_rewritten] on
    that row and leaves every other row as it was; a post of version
    [original], or without [parent_article_id], leaves every row as it
    was; a post that is refused leaves the table as it was. *)
Theorem store_flags_parent_only
        (fw : Framework) (db db' : Table) (r : Request) (resp : Response) :
  store fw db r = (resp, db') ->
  (forall a p,
      resp = Created a -> req_version r = Some "rewritten" ->
      req_parent_article_id r = Some p -> 0 < p ->
      (exists parent, find db p = Some parent /\
                      find db' p = Some (set_is_rewritten parent) /\
                      is_rewritten (set_is_rewritten parent) = true) /\
      (forall i x, nth_error db i = Some x -> id x <> p ->
                   nth_error db' i = Some x)) /\
  (req_version r = Some "original" \/ req_parent_article_id r = None ->
   forall i x, nth_error db i = Some x -> nth_error db' i = Some x) /\
  ((forall a, resp <> Created a) -> db' = db).
Proof.
  intros Hstore. pose proof (store_table _ _ _ _ _ Hstore) as Htable.
  split; [|split].
  - intros a p -> Hver Hpar Hpos.
    destruct Htable as (attrs & Ev & Ec & ->).
    destruct (Article_create_some _ _ _ _ Ec) as (_ & _ & _ & Hv & Hp & _).
    destruct (validate_some _ _ _ _ Ev) as (_ & _ & (v & Hv1 & Hv2) & Hp2 & Hex).
    rewrite Hver in Hv1. injection Hv1 as <-.
    rewrite (parse_version_rewritten _ _ Hv2 eq_refl) in Hv.
    rewrite Hp, Hp2, Hpar, Hv.
    assert (E0 : (p =? 0) = false) by (apply Nat.eqb_neq; lia).
    rewrite E0. simpl.
    destruct (Hex p Hpar) as [parent Hparent]. split.
    + exists parent. split; [exact Hparent|]. split; [|reflexivity].
      apply find_app_some. now rewrite find_mark_rewritten, Hparent.
    + intros i x Hx Hne. apply nth_error_app_left.
      now apply mark_rewritten_nth.
  - intros Hcase i x Hx. destruct resp as [a| |]; try (subst db'; exact Hx).
    destruct Htable as (attrs & Ev & Ec & ->).
    destruct (Article_create_some _ _ _ _ Ec) as (_ & _ & _ & Hv & Hp & _).
    destruct (validate_some _ _ _ _ Ev) as (_ & _ & (v & Hv1 & Hv2) & Hp2 & _).
    destruct Hcase as [Hver|Hpar].
    + rewrite Hver in Hv1. injection Hv1 as <-.
      rewrite (parse_version_original _ _ Hv2 eq_refl) in Hv. rewrite Hv. simpl.
      destruct (parent_article_id a); now apply nth_error_app_left.
    + rewrite Hp, Hp2, Hpar. now apply nth_error_app_left.
  - intros Hno. destruct resp as [a| |]; [|exact Htable|exact Htable].
    now destruct (Hno a).
Qed.

Lemma store_flags_parent_only_witness :
  exists parent,
    find Samples.one_article 1 = Some parent /\
    find (snd (store Samples.laravel Samples.one_article Samples.rewrite_post)) 1
    = Some (set_is_rewritten parent) /\
    is_rewritten (set_is_rewritten parent) = true.
Proof.
  pose (created := match fst (store Samples.laravel Samples.one_article
                                    Samples.rewrite_post) with
                   | Created a => a
                   | _ => Samples.chatbots_article
                   end).
  pose proof (store_flags_parent_only
                Samples.laravel Samples.one_article
                (snd (store Samples.laravel Samples.one_article Samples.rewrite_post))
                Samples.rewrite_post (Created created) eq_refl)
    as (Hflag & _ & _).
  apply (Hflag created 1); [reflexivity | reflexivity | reflexivity | lia].
Defined.

End StoreFacts.

(** ** The scraping command *)

Module ScraperFacts.
Import Str Store Scraper.
Local Open Scope list_scope.

Lemma in_array_In (x : string) (xs : list string) :
  in_array x xs = true <-> In x xs.
Proof.
  unfold in_array. rewrite existsb_exists. split.
  - intros (y & Hy & E). apply String.eqb_eq in E. now subst.
  - intros H. exists x. split; [exact H | apply String.eqb_refl].
Qed.

Lemma in_array_false (x : string) (xs : list string) :
  in_array x xs = false <-> ~ In x xs.
Proof. rewrite <- in_array_In. now destruct (in_array x xs). Qed.

(** *** The batch: size and duplicates *)

Section Collect.
Variable w : Web.
Variable target : nat.

Lemma add_url_NoDup (acc : list string) (url : string) :
  NoDup acc -> NoDup (add_url target acc url).
Proof.
  intros H. unfold add_url.
  destruct (in_array url acc) eqn:E; simpl; [exact H|].
  destruct (length acc <? target); [|exact H].
  apply in_array_false in E.
  apply NoDup_app; [exact H | repeat constructor; intros [] |].
  intros x Hx [<-|[]]. now apply E.
Qed.

Lemma fold_add_url_NoDup (page acc : list string) :
  NoDup acc -> NoDup (fold_left (add_url target) page acc).
Proof.
  revert acc. induction page as [|u page IH]; intros acc H; simpl.
  - exact H.
  - apply IH. now apply add_url_NoDup.
Qed.

Lemma collect_NoDup (currentPage : nat) (acc : list string) :
  NoDup acc -> NoDup (collect w target currentPage acc).
Proof.
  revert acc. induction currentPage as [|previous IH]; intros acc H.
  - exact H.
  - cbn [collect]. destruct (length acc <? target); [|exact H].
    destruct (getArticleUrlsFromPage w (pageUrl (S previous))) as [|u page].
    + now apply IH.
    + set (acc' := if 0 <? target - length acc then _ else acc).
      assert (H' : NoDup acc').
      { subst acc'. destruct (0 <? target - length acc); [|exact H].
        now apply fold_add_url_NoDup. }
      destruct (length acc' <? target); [now apply IH | exact H'].
Qed.

(** Links that are new and fit are appended as they stand. *)
Lemma fold_add_url_fresh (page acc : list string) :
  NoDup (acc ++ page) -> length (acc ++ page) <= target ->
  fold_left (add_url target) page acc = acc ++ page.
Proof.
  revert acc. induction page as [|u page IH]; intros acc Hnd Hlen; simpl.
  - now rewrite app_nil_r.
  - replace (acc ++ u :: page) with ((acc ++ [u]) ++ page) in *
      by now rewrite <- app_assoc.
    rewrite <- IH; [|exact Hnd|exact Hlen]. f_equal.
    unfold add_url.
    assert (Hnew : in_array u acc = false).
    { apply in_array_false. intros Hin.
      apply NoDup_app_remove_r in Hnd.
      apply NoDup_remove_2 in Hnd. rewrite app_nil_r in Hnd. now apply Hnd. }
    rewrite Hnew. simpl.
    rewrite !length_app in Hlen. simpl in Hlen.
    assert (Hfit : (length acc <? target) = true) by (apply Nat.ltb_lt; lia).
    now rewrite Hfit.
Qed.

End Collect.

Lemma NoDup_firstn {A : Type} (n : nat) (l : list A) :
  NoDup l -> NoDup (firstn n l).
Proof.
  intros H. rewrite <- (firstn_skipn n l) in H.
  now apply NoDup_app_remove_r in H.
Qed.

Lemma NoDup_skipn {A : Type} (n : nat) (l : list A) :
  NoDup l -> NoDup (skipn n l).
Proof.
  intros H. rewrite <- (firstn_skipn n l) in H.
  now apply NoDup_app_remove_l in H.
Qed.

Lemma array_unique_from_spec (seen xs : list string) :
  NoDup (array_unique_from seen xs) /\
  forall x, In x (array_unique_from seen xs) -> In x xs /\ ~ In x seen.
Proof.
  revert seen. induction xs as [|y xs IH]; intros seen; simpl.
  - split; [constructor | intros x []].
  - destruct (in_array y seen) eqn:E.
    + destruct (IH seen) as [Hnd Hin]. split; [exact Hnd|].
      intros x Hx. destruct (Hin x Hx). auto.
    + destruct (IH (y :: seen)) as [Hnd Hin]. apply in_array_false in E. split.
      * constructor; [|exact Hnd]. intros Hy.
        destruct (Hin y Hy) as [_ Hno]. apply Hno. now left.
      * intros x [<-|Hx]; [auto|].
        destruct (Hin x Hx) as [H1 H2]. split; [now right|].
        intros H3. apply H2. now right.
Qed.

Lemma getArticleUrlsFromPage_NoDup (w : Web) (pageUrl : string) :
  NoDup (getArticleUrlsFromPage w pageUrl).
Proof.
  unfold getArticleUrlsFromPage.
  destruct (get_listing w pageUrl); [|constructor].
  apply array_unique_from_spec.
Qed.

(** C4.  The batch holds at most [targetCount] links and no link twice;
    when the listing has one page and the command finds seven article
    links on it, the batch is the last five of them in the order of
    the page. *)
Theorem locateBatch_bounded_distinct (w : Web) :
  length (locateBatch w) <= targetCount /\
  NoDup (locateBatch w) /\
  (forall links,
      findLastPage w = 1 ->
      getArticleUrlsFromPage w baseUrl = links ->
      length links = 7 ->
      locateBatch w = skipn 2 links).
Proof.
  split; [apply firstn_le_length|]. split.
  - apply NoDup_firstn, collect_NoDup. constructor.
  - intros links Hlast Hpage Hlen.
    pose proof (getArticleUrlsFromPage_NoDup w baseUrl) as Hnd.
    rewrite Hpage in Hnd.
    assert (Hslice : array_slice_last targetCount links = skipn 2 links).
    { unfold array_slice_last. now rewrite Hlen. }
    assert (Hlen5 : length (skipn 2 links) = 5) by (rewrite length_skipn; lia).
    unfold locateBatch, collected. rewrite Hlast.
    cbn [collect]. change (pageUrl 1) with baseUrl. rewrite Hpage.
    change (length (@nil string) <? targetCount) with true. cbv iota.
    destruct links as [|u links']; [discriminate|].
    change (targetCount - length (@nil string)) with targetCount.
    change (0 <? targetCount) with true. cbv iota.
    rewrite Hslice.
    assert (Hfold : fold_left (add_url targetCount) (skipn 2 (u :: links')) []
                    = skipn 2 (u :: links')).
    { apply (fold_add_url_fresh targetCount (skipn 2 (u :: links')) []).
      - rewrite app_nil_l. now apply NoDup_skipn.
      - rewrite app_nil_l, Hlen5. unfold targetCount. lia. }
    rewrite Hfold, Hlen5.
    change (5 <? targetCount) with false. cbv iota.
    apply firstn_all2. rewrite Hlen5. unfold targetCount. lia.
Qed.

(** *** Fresh slugs *)

Lemma of_nat_inj (j k : nat) : of_nat j = of_nat k -> j = k.
Proof.
  unfold of_nat. intros H.
  apply (f_equal DecimalString.NilEmpty.uint_of_string) in H.
  rewrite !DecimalString.NilEmpty.usu in H. injection H as H.
  now apply DecimalNat.Unsigned.to_uint_inj.
Qed.

Lemma slug_candidate_inj (baseSlug : string) (j k : nat) :
  slug_candidate baseSlug j = slug_candidate baseSlug k -> j = k.
Proof.
  destruct j as [|j], k as [|k]; simpl; intros H.
  - reflexivity.
  - apply (f_equal String.length) in H.
    rewrite StrFacts.length_append in H. simpl in H. lia.
  - apply (f_equal String.length) in H.
    rewrite StrFacts.length_append in H. simpl in H. lia.
  - apply StrFacts.append_inj_l in H. injection H as H.
    now apply of_nat_inj.
Qed.

Lemma forallb_false {A : Type} (f : A -> bool) (l : list A) :
  forallb f l = false -> exists x, In x l /\ f x = false.
Proof.
  induction l as [|y l IH]; simpl; [discriminate|].
  destruct (f y) eqn:E; simpl.
  - intros H. destruct (IH H) as (x & Hx & Hf). exists x. auto.
  - intros _. exists y. auto.
Qed.

Lemma NoDup_map_inj {A B : Type} (f : A -> B) (l : list A) :
  (forall x y, f x = f y -> x = y) -> NoDup l -> NoDup (map f l).
Proof.
  intros Hinj H. induction H as [|x l Hx H IH]; simpl; constructor.
  - intros Hin. apply in_map_iff in Hin as (y & E & Hy).
    apply Hinj in E. now subst.
  - exact IH.
Qed.

Lemma slug_exists_In (db : Table) (s : string) :
  slug_exists db s = true -> In s (map slug db).
Proof.
  unfold slug_exists. rewrite existsb_exists. intros (a & Ha & E).
  apply String.eqb_eq in E. subst s. now apply in_map.
Qed.

(** A table of [n] rows cannot hold all of the first [n + 1] candidates. *)
Lemma some_candidate_free (db : Table) (baseSlug : string) :
  exists k, k < S (length db) /\ slug_exists db (slug_candidate baseSlug k) = false.
Proof.
  destruct (forallb (fun k => slug_exists db (slug_candidate baseSlug k))
                    (seq 0 (S (length db)))) eqn:E.
  - exfalso.
    assert (Hincl : incl (map (slug_candidate baseSlug) (seq 0 (S (length db))))
                         (map slug db)).
    { intros s Hs. apply in_map_iff in Hs as (k & <- & Hk).
      apply slug_exists_In. rewrite forallb_forall in E. now apply E. }
    apply NoDup_incl_length in Hincl.
    + rewrite !length_map, length_seq in Hincl. lia.
    + apply NoDup_map_inj; [|apply seq_NoDup].
      intros j k. apply slug_candidate_inj.
  - apply forallb_false in E as (k & Hk & Hf). exists k. split; [|exact Hf].
    apply in_seq in Hk. lia.
Qed.

Lemma generateUniqueSlug_loop_fresh (db : Table) (baseSlug : string) (fuel k : nat) :
  (exists j, k <= j < k + fuel /\ slug_exists db (slug_candidate baseSlug j) = false) ->
  slug_exists db
    (generateUniqueSlug_loop fuel db baseSlug (slug_candidate baseSlug k) (S k))
  = false.
Proof.
  revert k. induction fuel as [|fuel IH]; intros k (j & Hj & Hfree).
  - lia.
  - cbn [generateUniqueSlug_loop].
    destruct (slug_exists db (slug_candidate baseSlug k)) eqn:E; [|exact E].
    change (baseSlug ++ "-" ++ of_nat (S k))%string
      with (slug_candidate baseSlug (S k)).
    apply IH. exists j. split; [|exact Hfree].
    assert (j <> k) by (intros ->; congruence). lia.
Qed.

(** The loop of [generateUniqueSlug] ends within its fuel, on a slug no
    row has. *)
Lemma generateUniqueSlug_fresh (db : Table) (baseSlug : string) :
  slug_exists db (generateUniqueSlug db baseSlug) = false.
Proof.
  unfold generateUniqueSlug.
  change baseSlug with (slug_candidate baseSlug 0) at 2.
  apply generateUniqueSlug_loop_fresh.
  destruct (some_candidate_free db baseSlug) as (k & Hk & Hfree).
  exists k. split; [lia | exact Hfree].
Qed.

(** *** A second run *)








Section Runs.
Variable w : Web.






End Runs.


Lemma locateBatch_bounded_distinct_witness :
  locateBatch (Samples.unreadable_blog Samples.seven_links)
  = skipn 2 Samples.seven_links.
Proof.
  apply (proj2 (proj2 (locateBatch_bounded_distinct
                         (Samples.unreadable_blog Samples.seven_links))));
    reflexivity.
Defined.


End ScraperFacts.

(** ** The rewrite script *)

Module RewriterFacts.
Import Str Rewriter.
Import StrFacts.

(** *** Which links become references *)

Lemma subseq_refl {A : Type} (l : list A) : subseq l l.
Proof. induction l; now constructor. Qed.

Lemma subseq_In {A : Type} (xs ys : list A) (x : A) :
  subseq xs ys -> In x xs -> In x ys.
Proof.
  induction 1 as [|y xs ys _ IH|y xs ys _ IH]; simpl; intros H.
  - exact H.
  - right. now apply IH.
  - destruct H as [H|H]; [now left | right; now apply IH].
Qed.



Lemma subseq_firstn {A : Type} (n : nat) (l : list A) : subseq (firstn n l) l.
Proof.
  assert (Hnil : forall l' : list A, subseq [] l')
    by (induction l'; now constructor).
  revert n. induction l as [|x l IH]; intros [|n]; simpl.
  - constructor.
  - constructor.
  - apply Hnil.
  - apply subseq_take, IH.
Qed.

(** The references a pass over [urls] adds are, in order, some of [urls]. *)
Lemma scrape_references_urls (env : Env) (urls : list string) (acc : list Reference) :
  exists kept,
    map url (fold_left (scrape_reference env) urls acc) = (map url acc ++ kept)%list /\
    subseq kept urls.
Proof.
  revert acc. induction urls as [|u urls IH]; intros acc; cbn [fold_left].
  - exists []. rewrite app_nil_r. split; [reflexivity | constructor].
  - destruct (IH (scrape_reference env acc u)) as (kept & E & Hsub).
    unfold scrape_reference in *.
    destruct (scrapeArticle env u) as [c|e].
    + destruct (truthy (scraped_content c) && (100 <? String.length (scraped_content c))).
      * exists (u :: kept). rewrite E, map_app, <- app_assoc. simpl.
        split; [reflexivity | now constructor].
      * exists kept. split; [exact E | now constructor].
    + exists kept. split; [exact E | now constructor].
Qed.

Lemma scrapeReferenceArticles_urls (env : Env) (urls : list string) :
  subseq (map url (scrapeReferenceArticles env urls))
         (firstn 2 (filter reference_candidate urls)).
Proof.
  unfold scrapeReferenceArticles.
  destruct (firstn 2 (filter reference_candidate urls)) as [|u us] eqn:E.
  - constructor.
  - destruct (scrape_references_urls env (u :: us) []) as (kept & Ek & Hsub).
    rewrite Ek. exact Hsub.
Qed.

Lemma isBeyondChatsUrl_true (u : string) :
  isBeyondChatsUrl u = true <-> contains "beyondchats" (toLowerCase u).
Proof.
  unfold isBeyondChatsUrl. destruct u as [|c u].
  - simpl. split; [discriminate|].
    intros H. apply includes_contains in H. discriminate.
  - cbn [truthy String.eqb negb].
    set (urlLower := toLowerCase (String c u)).
    rewrite <- includes_contains. split.
    + intros H. apply orb_true_iff in H as [H|H];
        [apply orb_true_iff in H as [H|H]|]; [|exact H|].
      * apply includes_contains.
        apply includes_contains in H.
        now apply (contains_longer "" "beyondchats" ".com").
      * apply includes_contains.
        apply includes_contains in H.
        now apply (contains_longer "www." "beyondchats" ".com").
    + intros H. rewrite H. now rewrite orb_true_r.
Qed.

(** C10.  [isBeyondChatsUrl] holds of exactly the links whose lower-case
    text mentions [beyondchats], wherever in the link that is; and no
    such link is the link of a scraped reference. *)
Theorem isBeyondChatsUrl_any_mention :
  (forall u, isBeyondChatsUrl u = true <-> contains "beyondchats" (toLowerCase u)) /\
  (forall env urls,
      Forall (fun ref => ~ contains "beyondchats" (toLowerCase (url ref)))
             (scrapeReferenceArticles env urls)).
Proof.
  split; [exact isBeyondChatsUrl_true|].
  intros env urls. apply Forall_forall. intros ref Href Hmention.
  apply isBeyondChatsUrl_true in Hmention.
  assert (Hin : In (url ref) (filter reference_candidate urls)).
  { apply (subseq_In (firstn 2 (filter reference_candidate urls)));
      [apply subseq_firstn|].
    apply (subseq_In (map url (scrapeReferenceArticles env urls)));
      [apply scrapeReferenceArticles_urls|].
    now apply in_map. }
  apply filter_In in Hin as [_ Hc]. unfold reference_candidate in Hc.
  rewrite Hmention in Hc. simpl in Hc.
  now rewrite andb_false_r in Hc.
Qed.

(** *** What a run changes *)

Lemma latest_some (db : Store.Table) (a : Store.Article) :
  Store.latest db = Some a -> In a db /\ Store.unrewritten a = true.
Proof.
  unfold Store.latest. intros H. apply find_some in H as [Hin Hun].
  split; [now apply in_rev | exact Hun].
Qed.

(** Every request of the loop is counted, and a delay is waited between
    two requests. *)
Lemma gemini_loop_counts (env : Env) (prompt : string) (retries remaining i : nat)
      (w : World) :
  i + remaining = retries -> 0 < remaining ->
  let w' := snd (gemini_loop env prompt retries remaining i w) in
  articles w' = articles w /\
  exists k, 1 <= k <= remaining /\
            llm_calls w' = llm_calls w + k /\
            waited w' = (waited w ++ map backoff (seq i (k - 1)))%list.
Proof.
  revert i w. induction remaining as [|remaining IH]; intros i w Hsum Hpos; [lia|].
  assert (Hone : forall r : Result (option string),
             let w' := snd (r, count_call w) in
             articles w' = articles w /\
             exists k, 1 <= k <= S remaining /\
                       llm_calls w' = llm_calls w + k /\
                       waited w' = (waited w ++ map backoff (seq i (k - 1)))%list).
  { intros r. split; [reflexivity|]. exists 1. simpl.
    rewrite app_nil_r. repeat split; lia. }
  cbn [gemini_loop]. unfold gemini_attempt.
  destruct (gemini env (llm_calls w) (request_text prompt)) as [[text|]|e].
  - destruct (truthy text); apply Hone.
  - apply Hone.
  - destruct (is_rate_limit e && (i <? retries - 1)) eqn:Eretry; [|apply Hone].
    apply andb_prop in Eretry as [_ Hlt]. apply Nat.ltb_lt in Hlt.
    destruct (IH (S i) (wait (backoff i) (count_call w))) as (Ha & k & Hk & Hc & Hw);
      [lia | lia |].
    cbv zeta in *. split; [exact Ha|].
    exists (S k). split; [lia|]. split.
    + rewrite Hc. simpl. lia.
    + rewrite Hw. simpl waited. rewrite <- app_assoc.
      replace (S k - 1) with (S (k - 1)) by lia. reflexivity.
Qed.

(** When the backend is rate limited every time, the loop gives up at
    its last turn. *)
Lemma gemini_loop_rate_limited (env : Env) (prompt : string)
      (retries remaining i : nat) (w : World) :
  i + remaining = retries -> 0 < remaining ->
  (forall k, k < remaining ->
             exists st, gemini env (llm_calls w + k) (request_text prompt)
                        = Failure (HttpError 429 st)) ->
  exists st,
    gemini_loop env prompt retries remaining i w
    = (Throw (HttpError 429 st),
       {| articles := articles w;
          llm_calls := llm_calls w + remaining;
          waited := (waited w ++ map backoff (seq i (remaining - 1)))%list |}).
Proof.
  revert i w. induction remaining as [|remaining IH]; intros i w Hsum Hpos Hall; [lia|].
  cbn [gemini_loop]. unfold gemini_attempt.
  destruct (Hall 0 ltac:(lia)) as [st Hst]. rewrite Nat.add_0_r in Hst.
  rewrite Hst. cbn [is_rate_limit Nat.eqb andb].
  destruct (i <? retries - 1) eqn:Elt.
  - apply Nat.ltb_lt in Elt.
    destruct (IH (S i) (wait (backoff i) (count_call w))) as [st' E]; [lia | lia | |].
    + intros k Hk. destruct (Hall (S k) ltac:(lia)) as [st' E].
      exists st'. simpl llm_calls. rewrite <- E. f_equal. lia.
    + exists st'. rewrite E. f_equal.
      replace (S remaining - 1) with (S (remaining - 1)) by lia.
      cbn [articles llm_calls waited wait count_call seq map].
      rewrite <- app_assoc. f_equal. lia.
  - apply Nat.ltb_ge in Elt. assert (remaining = 0) by lia. subst remaining.
    exists st. unfold count_call. simpl. rewrite app_nil_r. f_equal. f_equal. lia.
Qed.

Lemma backoff_step (i : nat) : (backoff i < backoff (S i))%Z.
Proof.
  unfold backoff. rewrite Nat2Z.inj_succ, Z.pow_succ_r by lia.
  assert (0 < 2 ^ Z.of_nat i)%Z by (apply Z.pow_pos_nonneg; lia). lia.
Qed.

(** The delays grow from one retry to the next. *)
Lemma backoff_increasing (i n : nat) : Sorted Z.lt (map backoff (seq i n)).
Proof.
  revert i. induction n as [|n IH]; intros i; simpl; constructor.
  - apply IH.
  - destruct n; simpl; constructor. apply backoff_step.
Qed.

(** The loop after [k] rate limits: whatever the next request is
    answered, if it is not another rate limit, ends the loop. *)
Lemma gemini_loop_settles (env : Env) (prompt : string) (k : nat) :
  forall (retries remaining i : nat) (w : World),
  i + remaining = retries -> k < remaining ->
  (forall j, j < k ->
             exists st, gemini env (llm_calls w + j) (request_text prompt)
                        = Failure (HttpError 429 st)) ->
  (forall e, gemini env (llm_calls w + k) (request_text prompt) = Failure e ->
             is_rate_limit e = false) ->
  gemini_loop env prompt retries remaining i w
  = (match gemini env (llm_calls w + k) (request_text prompt) with
     | Failure e => Throw e
     | Answer (Some text) =>
         if truthy text then Return (Some (trim text))
         else Throw (Err "Invalid response from Google Gemini API")
     | Answer None => Throw (Err "Invalid response from Google Gemini API")
     end,
     {| articles := articles w;
        llm_calls := llm_calls w + S k;
        waited := (waited w ++ map backoff (seq i k))%list |}).
Proof.
  induction k as [|k IH]; intros retries remaining i w Hsum Hk Hlimited Hother;
    (destruct remaining as [|remaining]; [lia|]);
    cbn [gemini_loop]; unfold gemini_attempt.
  - rewrite Nat.add_0_r in *. unfold count_call. cbn [seq map].
    rewrite app_nil_r, Nat.add_1_r.
    destruct (gemini env (llm_calls w) (request_text prompt)) as [[text|]|e] eqn:E.
    + now destruct (truthy text).
    + reflexivity.
    + now rewrite (Hother e eq_refl).
  - destruct (Hlimited 0 ltac:(lia)) as [st Hst]. rewrite Nat.add_0_r in Hst.
    rewrite Hst. cbn [is_rate_limit Nat.eqb andb].
    assert (Hlt : (i <? retries - 1) = true) by (apply Nat.ltb_lt; lia).
    rewrite Hlt. cbv zeta.
    rewrite (IH retries remaining (S i) (wait (backoff i) (count_call w)));
      try lia.
    + cbn [articles llm_calls waited wait count_call seq map].
      replace (S (llm_calls w) + k) with (llm_calls w + S k) by lia.
      replace (S (llm_calls w) + S k) with (llm_calls w + S (S k)) by lia.
      rewrite <- app_assoc. reflexivity.
    + intros j Hj. destruct (Hlimited (S j) ltac:(lia)) as [st' E].
      exists st'. cbn [llm_calls wait count_call]. rewrite <- E. f_equal. lia.
    + intros e. cbn [llm_calls wait count_call].
      replace (S (llm_calls w) + k) with (llm_calls w + S k) by lia. apply Hother.
Qed.

(** C3, as the script has it.  Only the Gemini backend is retried, and
    the script calls it with the bound of 3.  With that bound it makes
    between one and three requests and waits between two requests,
    10000 ms and then 20000 ms, each delay twice the one before.  For
    any bound: a request that is answered with anything but a rate
    limit ends the call at once, after however many rate limits it
    comes, with the text or with the failure of that request; and when
    every request is rate limited the call gives up after exactly
    [retries] requests.  The OpenAI and the Ollama backend are asked
    once, whatever the answer. *)
Theorem retry_on_rate_limit (env : Env) (prompt : string) (w : World) :
  (LLM_PROVIDER env = "google" ->
   dispatch env prompt w = rewriteWithGoogleGemini env prompt 3 w) /\
  (LLM_PROVIDER env = "openai" ->
   dispatch env prompt w = rewriteWithOpenAI env prompt w) /\
  (LLM_PROVIDER env = "ollama" ->
   dispatch env prompt w = rewriteWithOllama env prompt w) /\
  (exists k, 1 <= k <= 3 /\
     llm_calls (snd (rewriteWithGoogleGemini env prompt 3 w)) = llm_calls w + k /\
     waited (snd (rewriteWithGoogleGemini env prompt 3 w))
     = (waited w ++ firstn (k - 1) [10000; 20000]%Z)%list) /\
  (forall n, Sorted Z.lt (map backoff (seq 0 n))) /\
  (forall i, backoff (S i) = (2 * backoff i)%Z) /\
  (forall retries k,
      k < retries ->
      (forall j, j < k ->
                 exists st, gemini env (llm_calls w + j) (request_text prompt)
                            = Failure (HttpError 429 st)) ->
      (forall e, gemini env (llm_calls w + k) (request_text prompt) = Failure e ->
                 is_rate_limit e = false) ->
      rewriteWithGoogleGemini env prompt retries w
      = (match gemini env (llm_calls w + k) (request_text prompt) with
         | Failure e => Throw e
         | Answer (Some text) =>
             if truthy text then Return (Some (trim text))
             else Throw (Err "Invalid response from Google Gemini API")
         | Answer None => Throw (Err "Invalid response from Google Gemini API")
         end,
         {| articles := articles w;
            llm_calls := llm_calls w + S k;
            waited := (waited w ++ map backoff (seq 0 k))%list |})) /\
  (forall retries,
      0 < retries ->
      (forall k, k < retries ->
                 exists st, gemini env (llm_calls w + k) (request_text prompt)
                            = Failure (HttpError 429 st)) ->
      exists st,
        rewriteWithGoogleGemini env prompt retries w
        = (Throw (HttpError 429 st),
           {| articles := articles w;
              llm_calls := llm_calls w + retries;
              waited := (waited w ++ map backoff (seq 0 (retries - 1)))%list |})) /\
  (forall e,
      gemini env (llm_calls w) (request_text prompt) = Failure e ->
      is_rate_limit e = false ->
      rewriteWithGoogleGemini env prompt 3 w = (Throw e, count_call w)) /\
  snd (rewriteWithOpenAI env prompt w) = count_call w /\
  snd (rewriteWithOllama env prompt w) = count_call w.
Proof.
  split; [|split; [|split; [|split; [|split; [|split; [|split; [|split;
    [|split; [|split]]]]]]]]].
  - intros E. unfold dispatch. now rewrite E.
  - intros E. unfold dispatch. now rewrite E.
  - intros E. unfold dispatch. now rewrite E.
  - destruct (gemini_loop_counts env prompt 3 3 0 w eq_refl ltac:(lia))
      as (_ & k & Hk & Hc & Hw).
    exists k. split; [exact Hk|]. split; [exact Hc|].
    unfold rewriteWithGoogleGemini. rewrite Hw. f_equal.
    destruct k as [|[|[|[|k]]]]; try lia; reflexivity.
  - intros n. apply backoff_increasing.
  - intros i. unfold backoff. rewrite Nat2Z.inj_succ, Z.pow_succ_r by lia. lia.
  - intros retries k Hk Hlimited Hother. unfold rewriteWithGoogleGemini.
    now apply gemini_loop_settles.
  - intros retries Hpos Hall.
    now apply gemini_loop_rate_limited.
  - intros e He Hno. unfold rewriteWithGoogleGemini.
    cbn [gemini_loop]. unfold gemini_attempt. rewrite He, Hno. reflexivity.
  - reflexivity.
  - reflexivity.
Qed.

(** *** The table during a run *)

Lemma dispatch_articles (env : Env) (prompt : string) (w : World) :
  articles (snd (dispatch env prompt w)) = articles w.
Proof.
  unfold dispatch.
  destruct (String.eqb (LLM_PROVIDER env) "google").
  { apply (gemini_loop_counts env prompt 3 3 0 w eq_refl). lia. }
  destruct (String.eqb (LLM_PROVIDER env) "openai"); [reflexivity|].
  destruct (String.eqb (LLM_PROVIDER env) "ollama"); reflexivity.
Qed.

Lemma rewriteWithLLM_articles (env : Env) (article : Store.Article)
      (references : list Reference) (w : World) :
  articles (snd (rewriteWithLLM env article references w)) = articles w.
Proof.
  unfold rewriteWithLLM.
  pose proof (dispatch_articles env (prompt_for article references) w) as H.
  destruct (dispatch env (prompt_for article references) w) as [[[text|]|e] w'];
    exact H.
Qed.

(** The title column after [store]. *)
Lemma store_titles (fw : Store.Framework) (db db' : Store.Table)
      (r : Store.Request) (resp : Store.Response) :
  Store.store fw db r = (resp, db') ->
  match resp with
  | Store.Created a =>
      Store.req_title r = Some (Store.title a) /\
      In a db' /\
      map Store.title db' = (map Store.title db ++ [Store.title a])%list
  | _ => db' = db
  end.
Proof.
  intros H. apply StoreFacts.store_table in H.
  destruct resp as [a| |]; [|exact H|exact H].
  destruct H as (attrs & Ev & Ec & ->).
  destruct (StoreFacts.Article_create_some _ _ _ _ Ec) as (_ & _ & Ht & _).
  destruct (StoreFacts.validate_some _ _ _ _ Ev) as (Hreq & _).
  rewrite Ht. split; [exact Hreq|].
  assert (Hshape : forall p, In a (Store.mark_rewritten db p ++ [a])%list /\
                   map Store.title (Store.mark_rewritten db p ++ [a])%list
                   = (map Store.title db ++ [Store.a_title attrs])%list).
  { intros p. split; [apply in_or_app; right; now left|].
    rewrite map_app, StoreFacts.mark_rewritten_titles. simpl. now rewrite Ht. }
  assert (Hplain : In a (db ++ [a])%list /\
                   map Store.title (db ++ [a])%list
                   = (map Store.title db ++ [Store.a_title attrs])%list).
  { split; [apply in_or_app; right; now left|].
    rewrite map_app. simpl. now rewrite Ht. }
  destruct (Store.parent_article_id a) as [p|]; [|exact Hplain].
  destruct (_ && _); [apply Hshape | exact Hplain].
Qed.

(** C2.  When no reference article could be scraped, the run asks no
    generation backend, leaves the table as it is, and returns the object
    whose [success] is false; the source article is still not flagged as
    rewritten, and it is the article the next run fetches. *)
Theorem no_references_no_rewrite (env : Env) (w : World) (article : Store.Article) :
  fetchLatestArticle w = Some article ->
  scrapeReferenceArticles env (googleSearch env (Store.title article)) = [] ->
  fst (rewriteLatest env w) = Return NoReferences /\
  success NoReferences = false /\
  llm_calls (snd (rewriteLatest env w)) = llm_calls w /\
  articles (snd (rewriteLatest env w)) = articles w /\
  Store.is_rewritten article = false /\
  fetchLatestArticle (snd (rewriteLatest env w)) = Some article.
Proof.
  intros Hlatest Hnone. unfold rewriteLatest. rewrite Hlatest, Hnone.
  cbn [fst snd]. repeat split; try assumption.
  apply latest_some in Hlatest as [_ Hun].
  unfold Store.unrewritten in Hun. apply andb_prop in Hun as [_ Hflag].
  now destruct (Store.is_rewritten article).
Qed.

(** The table after a run, by cases of what the run returns. *)
Lemma rewriteLatest_table (env : Env) (w : World) :
  match fst (rewriteLatest env w) with
  | Return (Rewritten o n) =>
      exists source stored,
        fetchLatestArticle w = Some source /\ Store.id source = o /\
        In stored (articles (snd (rewriteLatest env w))) /\
        Store.id stored = n /\
        Store.title stored = Store.title source ++ " (Rewritten)" /\
        map Store.title (articles (snd (rewriteLatest env w)))
        = (map Store.title (articles w) ++ [Store.title stored])%list
  | _ => articles (snd (rewriteLatest env w)) = articles w
  end.
Proof.
  unfold rewriteLatest.
  destruct (fetchLatestArticle w) as [source|] eqn:Hlatest; [|reflexivity].
  destruct (scrapeReferenceArticles env _) as [|ref refs]; [reflexivity|].
  pose proof (rewriteWithLLM_articles env source (ref :: refs) w) as Hllm.
  destruct (rewriteWithLLM env source (ref :: refs) w) as [[text|e] w1];
    cbn [snd] in Hllm; [|exact Hllm].
  unfold publishArticle.
  destruct (Store.store (framework env) (articles w1)
                        (rewrite_request source text (ref :: refs)))
    as [resp db'] eqn:Estore.
  apply store_titles in Estore. rewrite Hllm in Estore.
  destruct resp as [stored| |]; cbn [fst snd set_articles articles];
    [|exact Estore|exact Estore].
  destruct Estore as (Htitle & Hin & Hcol).
  exists source, stored. repeat split; try assumption.
  cbn [rewrite_request Store.req_title] in Htitle. now injection Htitle.
Qed.

(** C9.  The article a successful run stores is titled as its source with
    [" (Rewritten)"] behind; and whatever a run returns, every row that
    was in the table keeps its title. *)
Theorem rewritten_title_suffix (env : Env) (w : World) :
  (forall o n,
      fst (rewriteLatest env w) = Return (Rewritten o n) ->
      exists source stored,
        fetchLatestArticle w = Some source /\ Store.id source = o /\
        In stored (articles (snd (rewriteLatest env w))) /\
        Store.id stored = n /\
        Store.title stored = Store.title source ++ " (Rewritten)") /\
  (exists added,
      map Store.title (articles (snd (rewriteLatest env w)))
      = (map Store.title (articles w) ++ added)%list).
Proof.
  pose proof (rewriteLatest_table env w) as H. split.
  - intros o n E. rewrite E in H.
    destruct H as (source & stored & H1 & H2 & H3 & H4 & H5 & _).
    now exists source, stored.
  - destruct (fst (rewriteLatest env w)) as [[| |o n]|e].
    + exists []. now rewrite H, app_nil_r.
    + exists []. now rewrite H, app_nil_r.
    + destruct H as (source & stored & _ & _ & _ & _ & _ & H).
      now exists [Store.title stored].
    + exists []. now rewrite H, app_nil_r.
Qed.

(** *** The references section *)





(** *** The search *)


Lemma each_link_full (env : Env) (hrefs : list (option string)) (urls : list string) :
  2 <= length urls -> each_link env hrefs urls = urls.
Proof.
  intros H. apply Nat.leb_le in H. destruct hrefs; cbn [each_link]; [reflexivity|].
  now rewrite H.
Qed.

Lemma each_link_app (env : Env) (l1 l2 : list (option string)) (urls : list string) :
  each_link env (l1 ++ l2) urls = each_link env l2 (each_link env l1 urls).
Proof.
  revert urls. induction l1 as [|h l1 IH]; intros urls; [reflexivity|].
  cbn [app each_link]. destruct (2 <=? length urls) eqn:E; [|apply IH].
  apply Nat.leb_le in E. symmetry. now apply each_link_full.
Qed.

(** The loop over the selectors is one pass over the matches of all of
    them, one selector after the other. *)
Lemma selector_loop_flat (env : Env) (page : SearchPage) (selectors : list string)
      (urls : list string) :
  selector_loop env page selectors urls
  = each_link env (flat_map (sp_select page) selectors) urls.
Proof.
  revert urls. induction selectors as [|selector rest IH]; intros urls; [reflexivity|].
  cbn [selector_loop flat_map]. rewrite each_link_app.
  destruct (2 <=? length (each_link env (sp_select page selector) urls)) eqn:E.
  - apply Nat.leb_le in E. symmetry. now apply each_link_full.
  - apply IH.
Qed.













(** *** The order of the fallback search *)















(** *** What a search keeps out *)









(** *** The title of a scraped page *)

Lemma split_first_passes (c : ascii) (a b : string) :
  has_char (fun d => Ascii.eqb d c) a = false ->
  split_first c (a ++ b) = a ++ split_first c b.
Proof.
  induction a as [|d a IH]; simpl; intros H; [reflexivity|].
  apply orb_false_iff in H as [Hd Ha]. rewrite Hd. now rewrite IH.
Qed.

Lemma split_first_stops (c : ascii) (a b : string) :
  has_char (fun d => Ascii.eqb d c) a = false ->
  split_first c (a ++ String c b) = a.
Proof.
  intros H. rewrite split_first_passes by exact H. simpl.
  rewrite Ascii.eqb_refl. apply append_empty_r.
Qed.

Lemma has_char_or (p q : ascii -> bool) (s : string) :
  has_char (fun d => p d || q d) s = false ->
  has_char p s = false /\ has_char q s = false.
Proof.
  induction s as [|d s IH]; simpl; intros H; [now split|].
  apply orb_false_iff in H as [Hd Hs]. apply orb_false_iff in Hd as [Hp Hq].
  destruct (IH Hs) as [H1 H2]. now rewrite Hp, Hq, H1, H2.
Qed.

(** C6 fails on the code.  The title is cut at its first hyphen or bar,
    not at the separator before the site name: of the page title
    [AI-powered chatbots - BeyondChats] both scrapers keep [AI]. *)
Theorem title_cut_at_first_separator :
  (forall a b,
      has_char (fun d => Ascii.eqb d pipe || Ascii.eqb d hyphen) a = false ->
      remove_site_name (a ++ "-" ++ b) = trim a) /\
  scrapeArticle_title Samples.title_only = "AI" /\
  Scraper.scrapeArticle_title Samples.php_title_only = Some "AI".
Proof.
  split; [|split; reflexivity].
  intros a b H. apply has_char_or in H as [Hpipe Hhyphen].
  unfold remove_site_name. f_equal.
  rewrite split_first_passes by exact Hpipe.
  change (split_first pipe ("-" ++ b)) with (String hyphen (split_first pipe b)).
  now apply split_first_stops.
Qed.

Lemma title_cut_at_first_separator_witness :
  remove_site_name ("AI" ++ "-" ++ "powered chatbots - BeyondChats") = trim "AI".
Proof.
  apply (proj1 title_cut_at_first_separator). reflexivity.
Defined.

(** *** The claims on sample runs *)

Lemma isBeyondChatsUrl_any_mention_witness :
  isBeyondChatsUrl "https://medium.com/blog/BeyondChats-review" = true.
Proof.
  apply (proj1 isBeyondChatsUrl_any_mention).
  exists "https://medium.com/blog/", "-review". reflexivity.
Defined.

Lemma no_references_no_rewrite_witness :
  fst (rewriteLatest Samples.fallback_world Samples.start) = Return NoReferences /\
  success NoReferences = false /\
  llm_calls (snd (rewriteLatest Samples.fallback_world Samples.start)) = 0 /\
  articles (snd (rewriteLatest Samples.fallback_world Samples.start))
  = Samples.one_article /\
  Store.is_rewritten Samples.chatbots_article = false /\
  fetchLatestArticle (snd (rewriteLatest Samples.fallback_world Samples.start))
  = Some Samples.chatbots_article.
Proof.
  apply (no_references_no_rewrite Samples.fallback_world Samples.start
                                  Samples.chatbots_article);
    reflexivity.
Defined.

Lemma rewritten_title_suffix_witness :
  exists source stored,
    fetchLatestArticle Samples.start = Some source /\ Store.id source = 1 /\
    In stored (articles (snd (rewriteLatest
                                (Samples.world_of "ollama" 0 Samples.plain_text)
                                Samples.start))) /\
    Store.id stored = 2 /\
    Store.title stored = Store.title source ++ " (Rewritten)".
Proof.
  apply (proj1 (rewritten_title_suffix
                  (Samples.world_of "ollama" 0 Samples.plain_text) Samples.start)).
  reflexivity.
Defined.



(** The claim of C3 fails on this run: the Ollama backend is rate
    limited once, would answer the second request, and is asked once. *)
Lemma ollama_is_asked_once :
  let env := Samples.world_of "ollama" 1 Samples.plain_text in
  ollama_generate env 0 (request_text "p") = Failure Samples.too_many_requests /\
  ollama_generate env 1 (request_text "p") = Answer (Some Samples.plain_text) /\
  dispatch env "p" Samples.start
  = (Throw Samples.too_many_requests,
     {| articles := Samples.one_article; llm_calls := 1; waited := [] |}).
Proof. cbv zeta. repeat split. Qed.

Lemma retry_on_rate_limit_witness :
  dispatch MoreSamples.limited_then_down "p" Samples.start
  = (Throw MoreSamples.server_error,
     {| articles := Samples.one_article; llm_calls := 2; waited := [10000%Z] |}) /\
  (exists st,
      rewriteWithGoogleGemini (Samples.world_of "google" 3 Samples.plain_text)
                              "p" 3 Samples.start
      = (Throw (HttpError 429 st),
         {| articles := Samples.one_article;
            llm_calls := 3;
            waited := map backoff (seq 0 2) |})) /\
  rewriteWithGoogleGemini Samples.fallback_world "p" 3 Samples.start
  = (Throw NetworkError, count_call Samples.start).
Proof.
  pose proof (retry_on_rate_limit MoreSamples.limited_then_down "p" Samples.start)
    as (Hgoogle & _ & _ & _ & _ & _ & Hsettle & _).
  pose proof (retry_on_rate_limit (Samples.world_of "google" 3 Samples.plain_text)
                                  "p" Samples.start)
    as (_ & _ & _ & _ & _ & _ & _ & Hlimited & _).
  pose proof (retry_on_rate_limit Samples.fallback_world "p" Samples.start)
    as (_ & _ & _ & _ & _ & _ & _ & _ & Hother & _).
  split; [|split].
  - rewrite (Hgoogle eq_refl). apply (Hsettle 3 1); [lia | |].
    + intros j Hj. exists "Too Many Requests".
      destruct j as [|j]; [reflexivity | lia].
    + intros e He. injection He as <-. reflexivity.
  - apply (Hlimited 3); [lia|].
    intros k Hk. exists "Too Many Requests".
    destruct k as [|[|[|k]]]; [reflexivity | reflexivity | reflexivity | lia].
  - apply Hother; reflexivity.
Defined.



End RewriterFacts.

(** ** More on the article table *)

Module StoreMore.
Import Str Store Integrity.
Local Open Scope list_scope.

Lemma find_none_above (db : Table) (i : nat) :
  (forall x, In x db -> id x < i) -> find db i = None.
Proof.
  unfold find. induction db as [|y db IH]; intros H; simpl; [reflexivity|].
  assert (Hy : id y < i) by (apply H; now left).
  apply Nat.lt_neq, Nat.eqb_neq in Hy. rewrite Hy.
  apply IH. intros x Hx. apply H. now right.
Qed.

Lemma find_app_none (db extra : Table) (i : nat) :
  find db i = None -> find (db ++ extra) i = find extra i.
Proof.
  unfold find. induction db as [|y db IH]; simpl; [reflexivity|].
  destruct (id y =? i); [discriminate | exact IH].
Qed.

Lemma flag_if_fields (p : nat) (a : Article) :
  id (flag_if p a) = id a /\ slug (flag_if p a) = slug a /\
  source_url (flag_if p a) = source_url a /\
  parent_article_id (flag_if p a) = parent_article_id a /\
  title (flag_if p a) = title a /\ content (flag_if p a) = content a /\
  version (flag_if p a) = version a.
Proof. unfold flag_if. destruct (id a =? p); repeat split. Qed.

Lemma find_mark_any (db : Table) (p q : nat) :
  find (mark_rewritten db p) q = option_map (flag_if p) (find db q).
Proof.
  unfold find, mark_rewritten. induction db as [|y db IH]; simpl; [reflexivity|].
  fold (flag_if p y). destruct (flag_if_fields p y) as (-> & _).
  destruct (id y =? q); [reflexivity | exact IH].
Qed.

Lemma NoDup_snoc {A : Type} (l : list A) (x : A) :
  NoDup l -> ~ In x l -> NoDup (l ++ [x]).
Proof.
  intros Hl Hx. apply NoDup_app; [exact Hl | repeat constructor; intros [] |].
  intros y Hy [<-|[]]. now apply Hx.
Qed.

Lemma slug_exists_false (db : Table) (s : string) :
  slug_exists db s = false -> ~ In s (map slug db).
Proof.
  unfold slug_exists. intros H Hin. apply in_map_iff in Hin as (a & <- & Ha).
  assert (E : existsb (fun b => String.eqb (slug b) (slug a)) db = true);
    [|congruence].
  apply existsb_exists. exists a. split; [exact Ha | apply String.eqb_refl].
Qed.

Lemma source_url_exists_false (db : Table) (u : string) :
  source_url_exists db u = false -> ~ In u (source_urls db).
Proof.
  unfold source_url_exists, source_urls. intros H Hin.
  apply in_flat_map in Hin as (a & Ha & Hu).
  assert (E : existsb (has_source_url u) db = true); [|congruence].
  apply existsb_exists. exists a. split; [exact Ha|].
  unfold has_source_url. destruct (source_url a) as [v|]; [|contradiction].
  destruct Hu as [->|[]]. apply String.eqb_refl.
Qed.

Lemma source_urls_app (db extra : Table) :
  source_urls (db ++ extra) = source_urls db ++ source_urls extra.
Proof. apply flat_map_app. Qed.

Lemma parent_exists_app (db extra : Table) (a : Article) :
  parent_exists db a -> parent_exists (db ++ extra) a.
Proof.
  unfold parent_exists. destruct (parent_article_id a) as [p|]; [|trivial].
  intros [parent H]. exists parent. now apply StoreFacts.find_app_some.
Qed.

(** An insert keeps a sound table sound, as long as the parent the row
    names is there. *)
Lemma Article_create_sound (db db1 : Table) (attrs : Attributes) (a : Article) :
  sound db ->
  (forall p, a_parent_article_id attrs = Some p -> exists parent, find db p = Some parent) ->
  Article_create db attrs = Some (a, db1) ->
  sound db1.
Proof.
  intros [Hk Hpos Hs Hl Hp] Hparent Hc.
  unfold Article_create in Hc.
  destruct (slug_exists db (a_slug attrs)) eqn:Eslug; [discriminate|].
  destruct (match a_source_url attrs with
            | Some u => source_url_exists db u
            | None => false
            end) eqn:Eurl; [discriminate|].
  cbn [orb] in Hc. injection Hc as <- <-.
  set (row := {| id := next_id db; title := a_title attrs |}).
  constructor.
  - rewrite map_app. apply NoDup_snoc; [exact Hk|].
    cbn [map id row]. intros Hin. apply in_map_iff in Hin as (x & Ex & Hx).
    pose proof (StoreFacts.id_below_next db x Hx). lia.
  - apply Forall_app. split; [exact Hpos|]. constructor; [|constructor].
    cbn [id row]. unfold next_id. lia.
  - rewrite map_app. apply NoDup_snoc; [exact Hs|].
    now apply slug_exists_false.
  - rewrite source_urls_app. unfold source_urls at 2. cbn [flat_map source_url row].
    destruct (a_source_url attrs) as [u|]; cbn [app].
    + apply NoDup_snoc; [exact Hl | now apply source_url_exists_false].
    + now rewrite app_nil_r.
  - apply Forall_app. split.
    + eapply Forall_impl; [|exact Hp]. intros x. apply parent_exists_app.
    + constructor; [|constructor]. unfold parent_exists.
      cbn [parent_article_id row].
      destruct (a_parent_article_id attrs) as [p|] eqn:Epar; [|trivial].
      destruct (Hparent p eq_refl) as [parent Hf].
      exists parent. now apply StoreFacts.find_app_some.
Qed.

Lemma source_urls_mark (db : Table) (p : nat) :
  source_urls (mark_rewritten db p) = source_urls db.
Proof.
  unfold source_urls, mark_rewritten. induction db as [|y db IH]; simpl; [reflexivity|].
  fold (flag_if p y). destruct (flag_if_fields p y) as (_ & _ & -> & _).
  now rewrite IH.
Qed.

(** Flagging a parent keeps a sound table sound. *)
Lemma mark_rewritten_sound (db : Table) (p : nat) :
  sound db -> sound (mark_rewritten db p).
Proof.
  intros [Hk Hpos Hs Hl Hp].
  assert (Hids : map id (mark_rewritten db p) = map id db).
  { unfold mark_rewritten. rewrite map_map. apply map_ext.
    intros a. apply (flag_if_fields p a). }
  assert (Hslugs : map slug (mark_rewritten db p) = map slug db).
  { unfold mark_rewritten. rewrite map_map. apply map_ext.
    intros a. apply (flag_if_fields p a). }
  constructor.
  - now rewrite Hids.
  - unfold mark_rewritten. apply Forall_map.
    eapply Forall_impl; [|exact Hpos]. intros a Ha.
    fold (flag_if p a). now destruct (flag_if_fields p a) as (-> & _).
  - now rewrite Hslugs.
  - now rewrite source_urls_mark.
  - unfold mark_rewritten at 2. apply Forall_map.
    eapply Forall_impl; [|exact Hp]. intros a Ha.
    fold (flag_if p a). unfold parent_exists in *.
    destruct (flag_if_fields p a) as (_ & _ & _ & -> & _).
    destruct (parent_article_id a) as [q|]; [|trivial].
    destruct Ha as [parent Hf]. exists (flag_if p parent).
    now rewrite find_mark_any, Hf.
Qed.

(** X1.  A table that is sound stays sound under [POST /api/articles],
    whatever the request and whatever the reply: no key, slug or source
    link comes twice, and every [parent_article_id] names a row. *)
Theorem store_keeps_table_sound
        (fw : Framework) (db db' : Table) (r : Request) (resp : Response) :
  sound db -> store fw db r = (resp, db') -> sound db'.
Proof.
  intros Hsound Hstore. apply StoreFacts.store_table in Hstore.
  destruct resp as [a| |]; [|now subst|now subst].
  destruct Hstore as (attrs & Ev & Ec & ->).
  destruct (StoreFacts.validate_some _ _ _ _ Ev) as (_ & _ & _ & Hpar & Hex).
  assert (Hnew : sound (db ++ [a])).
  { apply (Article_create_sound db (db ++ [a]) attrs a Hsound); [|exact Ec].
    intros p Hp. apply Hex. now rewrite <- Hpar. }
  destruct (parent_article_id a) as [p|] eqn:Ep; [|exact Hnew].
  destruct (is_rewritten_version (version a) && negb (p =? 0)); [|exact Hnew].
  destruct (StoreFacts.Article_create_some _ _ _ _ Ec) as (_ & Hid & _ & _ & Hpa & _).
  destruct (Hex p) as [parent Hparent]; [now rewrite <- Hpar, <- Hpa|].
  destruct (StoreFacts.find_some_id _ _ _ Hparent) as [Hin Hidp].
  pose proof (StoreFacts.id_below_next db parent Hin) as Hlt.
  replace (mark_rewritten db p ++ [a]) with (mark_rewritten (db ++ [a]) p).
  - now apply mark_rewritten_sound.
  - rewrite StoreFacts.mark_rewritten_app. f_equal.
    apply StoreFacts.mark_rewritten_other. intros x [<-|[]]. lia.
Qed.

Lemma store_keeps_table_sound_witness :
  sound (snd (store Samples.laravel Samples.one_article Samples.rewrite_post)).
Proof.
  apply (store_keeps_table_sound Samples.laravel Samples.one_article _
                                 Samples.rewrite_post
                                 (fst (store Samples.laravel Samples.one_article
                                             Samples.rewrite_post)));
    [|reflexivity].
  constructor.
  - repeat constructor. intros [].
  - repeat constructor.
  - repeat constructor. intros [].
  - repeat constructor. intros [].
  - repeat constructor.
Defined.

(** X2.  The article [store] creates gets a key no row had, is not
    flagged as rewritten, is the one row added, and is the row
    [Article::find] returns for its key afterwards. *)
Theorem store_then_find
        (fw : Framework) (db db' : Table) (r : Request) (a : Article) :
  store fw db r = (Created a, db') ->
  find db' (id a) = Some a /\
  ~ In (id a) (map id db) /\
  is_rewritten a = false /\
  length db' = S (length db).
Proof.
  intros Hstore. apply StoreFacts.store_table in Hstore.
  destruct Hstore as (attrs & Ev & Ec & ->).
  destruct (StoreFacts.Article_create_some _ _ _ _ Ec) as (_ & Hid & _ & _ & _ & Hflag).
  assert (Hfresh : forall x, In x db -> id x < id a).
  { intros x Hx. rewrite Hid. now apply StoreFacts.id_below_next. }
  assert (Hlast : forall rows : Table,
             (forall x, In x rows -> id x < id a) -> length rows = length db ->
             find (rows ++ [a]) (id a) = Some a /\
             length (rows ++ [a]) = S (length db)).
  { intros rows Hrows Hlen. split.
    - rewrite find_app_none by now apply find_none_above.
      unfold find. simpl. now rewrite Nat.eqb_refl.
    - rewrite length_app. simpl. lia. }
  assert (Hmark : forall p,
             find (mark_rewritten db p ++ [a]) (id a) = Some a /\
             length (mark_rewritten db p ++ [a]) = S (length db)).
  { intros p. apply Hlast.
    - intros x Hx. unfold mark_rewritten in Hx.
      apply in_map_iff in Hx as (y & <- & Hy). fold (flag_if p y).
      destruct (flag_if_fields p y) as (-> & _). now apply Hfresh.
    - unfold mark_rewritten. apply length_map. }
  assert (Hnotin : ~ In (id a) (map id db)).
  { intros Hin. apply in_map_iff in Hin as (x & Ex & Hx).
    specialize (Hfresh x Hx). lia. }
  destruct (parent_article_id a) as [p|].
  - destruct (is_rewritten_version (version a) && negb (p =? 0)).
    + destruct (Hmark p). auto.
    + destruct (Hlast db Hfresh eq_refl). auto.
  - destruct (Hlast db Hfresh eq_refl). auto.
Qed.

Lemma store_then_find_witness :
  find (snd (store Samples.laravel Samples.one_article Samples.rewrite_post)) 2
  <> None.
Proof.
  pose (created := match fst (store Samples.laravel Samples.one_article
                                    Samples.rewrite_post) with
                   | Created a => a
                   | _ => Samples.chatbots_article
                   end).
  destruct (store_then_find Samples.laravel Samples.one_article
                            (snd (store Samples.laravel Samples.one_article
                                        Samples.rewrite_post))
                            Samples.rewrite_post created eq_refl) as (Hfind & _).
  intros Hnone. change (id created) with 2 in Hfind. congruence.
Defined.

End StoreMore.

(** ** More on the scraping command *)

Module ScraperMore.
Import Str Store Scraper Integrity Collected.
Local Open Scope list_scope.

(** *** The slug *)

Lemma generateUniqueSlug_loop_least (db : Table) (baseSlug : string) (fuel k : nat) :
  (exists j, k <= j < k + fuel /\ slug_exists db (slug_candidate baseSlug j) = false) ->
  exists m,
    k <= m /\
    generateUniqueSlug_loop fuel db baseSlug (slug_candidate baseSlug k) (S k)
    = slug_candidate baseSlug m /\
    slug_exists db (slug_candidate baseSlug m) = false /\
    forall j, k <= j < m -> slug_exists db (slug_candidate baseSlug j) = true.
Proof.
  revert k. induction fuel as [|fuel IH]; intros k (j & Hj & Hfree); [lia|].
  cbn [generateUniqueSlug_loop].
  destruct (slug_exists db (slug_candidate baseSlug k)) eqn:E.
  - change (baseSlug ++ "-" ++ of_nat (S k))%string
      with (slug_candidate baseSlug (S k)).
    destruct (IH (S k)) as (m & Hm & Eres & Hm_free & Hbelow).
    { exists j. split; [|exact Hfree].
      assert (j <> k) by (intros ->; congruence). lia. }
    exists m. split; [lia|]. split; [exact Eres|]. split; [exact Hm_free|].
    intros i Hi. destruct (Nat.eq_dec i k) as [->|Hne]; [exact E|].
    apply Hbelow. lia.
  - exists k. split; [lia|]. split; [reflexivity|]. split; [exact E|].
    intros i Hi. lia.
Qed.

(** X4.  [generateUniqueSlug] ends, on the first slug of the row
    [base], [base-1], [base-2], ... that no article has: the base slug
    itself when it is free. *)
Theorem generateUniqueSlug_first_free (db : Table) (baseSlug : string) :
  exists k,
    k <= length db /\
    generateUniqueSlug db baseSlug = slug_candidate baseSlug k /\
    slug_exists db (generateUniqueSlug db baseSlug) = false /\
    forall j, j < k -> slug_exists db (slug_candidate baseSlug j) = true.
Proof.
  destruct (ScraperFacts.some_candidate_free db baseSlug) as (j & Hj & Hfree).
  destruct (generateUniqueSlug_loop_least db baseSlug (S (length db)) 0)
    as (m & _ & Eres & Hm & Hbelow).
  { exists j. split; [lia | exact Hfree]. }
  assert (Egen : generateUniqueSlug db baseSlug = slug_candidate baseSlug m)
    by exact Eres.
  exists m. rewrite Egen.
  split; [|split; [reflexivity|split; [exact Hm|]]].
  - destruct (Nat.le_gt_cases m j) as [Hle|Hgt]; [lia|].
    rewrite (Hbelow j) in Hfree by lia. discriminate.
  - intros i Hi. apply Hbelow. lia.
Qed.

(** *** The links of a listing page *)

Lemma includes_trimStart (ws : ascii -> bool) (pat s : string) :
  includes pat (trimStart ws s) = true -> includes pat s = true.
Proof.
  induction s as [|c s IH]; [trivial|].
  cbn [trimStart]. destruct (ws c); [|trivial].
  intros H. rewrite StrFacts.includes_cons, (IH H).
  now destruct (String.prefix pat (String c s)).
Qed.

Lemma excluded_link_host (x : string) :
  excluded_link ("https://beyondchats.com" ++ x) = excluded_link x.
Proof. reflexivity. Qed.

Lemma excluded_link_ltrim (u : string) :
  excluded_link u = false -> excluded_link (ltrim_slash u) = false.
Proof.
  unfold excluded_link, ltrim_slash. intros H.
  repeat (apply orb_false_iff in H as [H ?]).
  repeat (apply orb_false_iff; split);
    match goal with
    | |- includes ?pat _ = false =>
        destruct (includes pat (trimStart (code_in [47]) u)) eqn:E; [|reflexivity];
        apply includes_trimStart in E; congruence
    end.
Qed.

(** A link that is not excluded stays so when it is made absolute. *)
Lemma absolute_not_excluded (u : string) :
  excluded_link u = false -> excluded_link (absolute u) = false.
Proof.
  intros H. unfold absolute. destruct (startsWith "http" u); [exact H|].
  rewrite excluded_link_host. now apply excluded_link_ltrim.
Qed.

Lemma visit_node_links (urls : list string) (found : nat) (href : option string) :
  Forall (fun u => article_link u = true) urls ->
  Forall (fun u => article_link u = true) (fst (visit_node (urls, found) href)).
Proof.
  intros H. unfold visit_node. destruct href as [u|]; [|exact H].
  destruct (truthy u); [|exact H].
  destruct (includes "/blogs/" (absolute u) && negb (excluded_link (absolute u)))
    eqn:Ea; [|exact H].
  destruct (in_array (absolute u) urls); [exact H|]. cbn [andb negb fst].
  apply Forall_app. split; [exact H|]. now constructor.
Qed.

Lemma fold_visit_node_links (hrefs : list (option string)) (urls : list string)
      (found : nat) :
  Forall (fun u => article_link u = true) urls ->
  Forall (fun u => article_link u = true)
         (fst (fold_left visit_node hrefs (urls, found))).
Proof.
  revert urls found. induction hrefs as [|h hrefs IH]; intros urls found H;
    [exact H|].
  cbn [fold_left]. pose proof (visit_node_links urls found h H) as H1.
  destruct (visit_node (urls, found) h) as [urls1 found1]. now apply IH.
Qed.

Lemma selector_cascade_links (page : ListingPage) (selectors : list string)
      (urls : list string) :
  Forall (fun u => article_link u = true) urls ->
  Forall (fun u => article_link u = true) (selector_cascade page selectors urls).
Proof.
  revert urls. induction selectors as [|s rest IH]; intros urls H; [exact H|].
  cbn [selector_cascade].
  pose proof (fold_visit_node_links (lp_select page s) urls 0 H) as H1.
  destruct (fold_left visit_node (lp_select page s) (urls, 0)) as [urls1 found1].
  destruct (0 <? found1); [exact H1 | now apply IH].
Qed.

Lemma visit_match_links (urls : list string) (u : string) :
  Forall (fun u => article_link u = true) urls ->
  Forall (fun u => article_link u = true) (visit_match urls u).
Proof.
  intros H. unfold visit_match.
  destruct (excluded_link u) eqn:Eex; [exact H|].
  destruct (includes "/blogs/" (absolute u)) eqn:Eblogs; [|exact H].
  destruct (in_array (absolute u) urls); [exact H|]. cbn [andb negb].
  apply Forall_app. split; [exact H|]. constructor; [|constructor].
  unfold article_link. now rewrite Eblogs, absolute_not_excluded.
Qed.

Lemma fold_visit_match_links (hrefs urls : list string) :
  Forall (fun u => article_link u = true) urls ->
  Forall (fun u => article_link u = true) (fold_left visit_match hrefs urls).
Proof.
  revert urls. induction hrefs as [|h hrefs IH]; intros urls H; [exact H|].
  cbn [fold_left]. now apply IH, visit_match_links.
Qed.

(** X5.  Every link [getArticleUrlsFromPage] returns is an article link:
    it has [/blogs/] in it and is no pagination, category, tag, author
    or anchor link; no link is returned twice; and a page that cannot
    be fetched gives no link. *)
Theorem getArticleUrlsFromPage_article_links (w : Web) (pageUrl : string) :
  Forall (fun u => article_link u = true) (getArticleUrlsFromPage w pageUrl) /\
  NoDup (getArticleUrlsFromPage w pageUrl) /\
  (get_listing w pageUrl = None -> getArticleUrlsFromPage w pageUrl = []).
Proof.
  split; [|split; [apply ScraperFacts.getArticleUrlsFromPage_NoDup|]].
  - unfold getArticleUrlsFromPage.
    destruct (get_listing w pageUrl) as [page|]; [|constructor].
    cbv zeta.
    pose proof (selector_cascade_links page link_selectors [] (Forall_nil _)) as H.
    pose proof (fold_visit_match_links (lp_regex_hrefs page) [] (Forall_nil _)) as H'.
    apply Forall_forall. intros u Hu.
    apply ScraperFacts.array_unique_from_spec in Hu as [Hu _].
    rewrite Forall_forall in H, H'.
    destruct (selector_cascade page link_selectors []); [now apply H' | now apply H].
  - intros H. unfold getArticleUrlsFromPage. now rewrite H.
Qed.

Lemma getArticleUrlsFromPage_article_links_witness :
  getArticleUrlsFromPage (Samples.unreadable_blog Samples.seven_links)
                         "https://beyondchats.com/blogs/page/2/" = [].
Proof.
  apply (getArticleUrlsFromPage_article_links
           (Samples.unreadable_blog Samples.seven_links)
           "https://beyondchats.com/blogs/page/2/").
  reflexivity.
Defined.

(** *** One selector, not several *)

Lemma visit_node_step (urls : list string) (found : nat) (href : option string) :
  visit_node (urls, found) href = (urls, found) \/
  exists u, ~ In u urls /\ visit_node (urls, found) href = (urls ++ [u], S found).
Proof.
  unfold visit_node. destruct href as [h|]; [|now left].
  destruct (truthy h); [|now left].
  destruct (includes "/blogs/" (absolute h) && negb (excluded_link (absolute h)));
    [|now left].
  destruct (in_array (absolute h) urls) eqn:E; [now left|]. cbn [andb negb].
  right. exists (absolute h). split; [now apply ScraperFacts.in_array_false|reflexivity].
Qed.

(** The counter [$found] counts the links added, none of which was there. *)
Lemma fold_visit_node_count (hrefs : list (option string)) (urls : list string)
      (found : nat) :
  NoDup urls ->
  exists added,
    fold_left visit_node hrefs (urls, found) = (urls ++ added, found + length added) /\
    NoDup (urls ++ added).
Proof.
  revert urls found. induction hrefs as [|h hrefs IH]; intros urls found Hnd.
  - exists []. cbn [fold_left length]. now rewrite app_nil_r, Nat.add_0_r.
  - cbn [fold_left].
    destruct (visit_node_step urls found h) as [E | (u & Hu & E)]; rewrite E.
    + now apply IH.
    + destruct (IH (urls ++ [u]) (S found)) as (added & Efold & Hnd').
      { now apply StoreMore.NoDup_snoc. }
      exists (u :: added). rewrite Efold, <- app_assoc. cbn [app length].
      split; [f_equal; lia | now rewrite <- app_assoc in Hnd'].
Qed.

Lemma selector_hits_spec (page : ListingPage) (selector : string) :
  fold_left visit_node (lp_select page selector) ([], 0)
  = (selector_hits page selector, length (selector_hits page selector)) /\
  NoDup (selector_hits page selector).
Proof.
  unfold selector_hits.
  destruct (fold_visit_node_count (lp_select page selector) [] 0 (NoDup_nil _))
    as (added & E & Hnd).
  rewrite E. cbn [app fst Nat.add]. now split.
Qed.

Lemma selector_cascade_first_hits (page : ListingPage) (selectors : list string) :
  selector_cascade page selectors [] = first_hits page selectors.
Proof.
  induction selectors as [|s rest IH]; [reflexivity|].
  cbn [selector_cascade first_hits].
  destruct (selector_hits_spec page s) as [E _]. rewrite E.
  destruct (selector_hits page s) as [|u us]; [exact IH | reflexivity].
Qed.

Lemma first_hits_NoDup (page : ListingPage) (selectors : list string) :
  NoDup (first_hits page selectors).
Proof.
  induction selectors as [|s rest IH]; [constructor|].
  cbn [first_hits]. pose proof (selector_hits_spec page s) as [_ Hnd].
  destruct (selector_hits page s); [exact IH | exact Hnd].
Qed.

Lemma visit_match_NoDup (urls : list string) (u : string) :
  NoDup urls -> NoDup (visit_match urls u).
Proof.
  intros H. unfold visit_match. destruct (excluded_link u); [exact H|].
  destruct (includes "/blogs/" (absolute u)); [|exact H].
  destruct (in_array (absolute u) urls) eqn:E; [exact H|]. cbn [andb negb].
  apply StoreMore.NoDup_snoc; [exact H | now apply ScraperFacts.in_array_false].
Qed.

Lemma regex_hits_NoDup (page : ListingPage) : NoDup (regex_hits page).
Proof.
  unfold regex_hits. generalize (NoDup_nil string).
  generalize (@nil string) as urls.
  induction (lp_regex_hrefs page) as [|h hrefs IH]; intros urls H; [exact H|].
  cbn [fold_left]. now apply IH, visit_match_NoDup.
Qed.

Lemma array_unique_from_NoDup (seen xs : list string) :
  NoDup xs -> (forall x, In x xs -> ~ In x seen) -> array_unique_from seen xs = xs.
Proof.
  revert seen. induction xs as [|x xs IH]; intros seen Hnd Hdis; [reflexivity|].
  cbn [array_unique_from].
  assert (E : in_array x seen = false).
  { apply ScraperFacts.in_array_false. apply Hdis. now left. }
  rewrite E. f_equal. inversion Hnd as [|? ? Hx Hxs]; subst.
  apply IH; [exact Hxs|]. intros y Hy [<-|Hin]; [now apply Hx|].
  apply (Hdis y); [now right | exact Hin].
Qed.

(** X6.  The links of a page come from one selector, the first in the
    order of the command that adds any; the hits of the selectors are
    not merged.  The regex fallback is used when no selector adds a
    link, and only then. *)
Theorem getArticleUrlsFromPage_first_selector
        (w : Web) (pageUrl : string) (page : ListingPage) :
  get_listing w pageUrl = Some page ->
  getArticleUrlsFromPage w pageUrl
  = match first_hits page link_selectors with
    | [] => regex_hits page
    | hits => hits
    end.
Proof.
  intros H. unfold getArticleUrlsFromPage. rewrite H. cbv zeta.
  rewrite selector_cascade_first_hits.
  pose proof (first_hits_NoDup page link_selectors) as Hnd.
  destruct (first_hits page link_selectors) as [|u us].
  - apply array_unique_from_NoDup; [apply regex_hits_NoDup | intros x _ []].
  - apply array_unique_from_NoDup; [exact Hnd | intros x _ []].
Qed.

Lemma getArticleUrlsFromPage_first_selector_witness :
  getArticleUrlsFromPage (Samples.unreadable_blog Samples.seven_links) baseUrl
  = Samples.seven_links.
Proof.
  apply (getArticleUrlsFromPage_first_selector
           (Samples.unreadable_blog Samples.seven_links) baseUrl
           (Samples.listing_of Samples.seven_links)).
  reflexivity.
Defined.

(** *** Links from the root of the site *)

Lemma root_relative_absolute (href : string) :
  root_relative href ->
  truthy href = true /\ includes "/blogs/" (absolute href) = false.
Proof.
  intros (slug & -> & H). split; [reflexivity|].
  exact H.
Qed.

Lemma visit_node_root_relative (urls : list string) (found : nat) (href : string) :
  root_relative href -> visit_node (urls, found) (Some href) = (urls, found).
Proof.
  intros H. apply root_relative_absolute in H as [Ht Hb].
  unfold visit_node. now rewrite Ht, Hb.
Qed.

Lemma visit_match_root_relative (urls : list string) (href : string) :
  root_relative href -> visit_match urls href = urls.
Proof.
  intros H. apply root_relative_absolute in H as [_ Hb].
  unfold visit_match. rewrite Hb. now destruct (excluded_link href).
Qed.

(** X7.  A link written from the root of the site is joined to the host
    with no slash between, [https://beyondchats.comblogs/...], and is
    then no article link: a listing page all of whose links are written
    so gives no article. *)
Theorem root_relative_links_are_lost (w : Web) (pageUrl : string) (page : ListingPage) :
  get_listing w pageUrl = Some page ->
  (forall selector href, In (Some href) (lp_select page selector) -> root_relative href) ->
  (forall href, In href (lp_regex_hrefs page) -> root_relative href) ->
  (forall slug, absolute ("/blogs/" ++ slug) = "https://beyondchats.comblogs/" ++ slug)%string /\
  getArticleUrlsFromPage w pageUrl = [].
Proof.
  intros Hpage Hsel Hregex. split; [reflexivity|].
  rewrite (getArticleUrlsFromPage_first_selector w pageUrl page Hpage).
  assert (Hhits : forall selector, selector_hits page selector = []).
  { intros selector. unfold selector_hits.
    assert (Hfold : forall hrefs,
               (forall href, In (Some href) hrefs -> root_relative href) ->
               fold_left visit_node hrefs ([], 0) = ([], 0)).
    { induction hrefs as [|h hrefs IH]; intros Hall; [reflexivity|].
      cbn [fold_left]. destruct h as [href|].
      - rewrite visit_node_root_relative by (apply Hall; now left).
        apply IH. intros x Hx. apply Hall. now right.
      - apply IH. intros x Hx. apply Hall. now right. }
    now rewrite Hfold by apply Hsel. }
  assert (Hfirst : forall selectors, first_hits page selectors = []).
  { induction selectors as [|s rest IH]; [reflexivity|].
    cbn [first_hits]. now rewrite Hhits. }
  rewrite Hfirst. unfold regex_hits.
  assert (Hfold : forall hrefs,
             (forall href, In href hrefs -> root_relative href) ->
             fold_left visit_match hrefs [] = []).
  { induction hrefs as [|h hrefs IH]; intros Hall; [reflexivity|].
    cbn [fold_left]. rewrite visit_match_root_relative by (apply Hall; now left).
    apply IH. intros x Hx. apply Hall. now right. }
  now apply Hfold.
Qed.

Lemma root_relative_links_are_lost_witness :
  getArticleUrlsFromPage MoreSamples.rooted_blog baseUrl = [].
Proof.
  apply (root_relative_links_are_lost MoreSamples.rooted_blog baseUrl
                                      MoreSamples.rooted_listing eq_refl).
  - intros selector href H. cbn [lp_select MoreSamples.rooted_listing] in H.
    destruct (String.eqb selector _); [|destruct H].
    destruct H as [E|[]]. injection E as <-. exists "one/"%string. now split.
  - intros href [<-|[]]. exists "one/"%string. now split.
Defined.

(** *** Which pages fill the batch *)

Lemma collect_S (w : Web) (target previous : nat) (acc : list string) :
  collect w target (S previous) acc
  = if length acc <? target then
      match getArticleUrlsFromPage w (pageUrl (S previous)) with
      | [] => collect w target previous acc
      | u :: us =>
          let acc' :=
            if 0 <? target - length acc
            then fold_left (add_url target)
                           (array_slice_last (target - length acc) (u :: us)) acc
            else acc in
          if length acc' <? target then collect w target previous acc' else acc'
      end
    else acc.
Proof. reflexivity. Qed.

Lemma collect_done (w : Web) (target page : nat) (acc : list string) :
  target <= length acc -> collect w target page acc = acc.
Proof.
  intros H. destruct page as [|previous]; [reflexivity|].
  rewrite collect_S. apply Nat.ltb_ge in H. now rewrite H.
Qed.

Lemma collect_skip (w : Web) (target previous : nat) (acc : list string) :
  getArticleUrlsFromPage w (pageUrl (S previous)) = [] ->
  collect w target (S previous) acc = collect w target previous acc.
Proof.
  intros H. rewrite collect_S, H.
  destruct (length acc <? target) eqn:E; [reflexivity|].
  apply Nat.ltb_ge in E. now rewrite collect_done.
Qed.

(** Pages without links are passed over. *)
Lemma collect_skip_range (w : Web) (target k page : nat) (acc : list string) :
  k <= page ->
  (forall q, k < q <= page -> getArticleUrlsFromPage w (pageUrl q) = []) ->
  collect w target page acc = collect w target k acc.
Proof.
  induction page as [|previous IH]; intros Hk Hempty.
  - now replace k with 0 by lia.
  - destruct (Nat.eq_dec k (S previous)) as [->|Hne]; [reflexivity|].
    rewrite collect_skip by (apply Hempty; lia).
    apply IH; [lia|]. intros q Hq. apply Hempty. lia.
Qed.

(** A page with enough links fills an empty batch by itself. *)
Lemma collect_fills (w : Web) (target previous : nat) :
  0 < target ->
  target <= length (getArticleUrlsFromPage w (pageUrl (S previous))) ->
  collect w target (S previous) []
  = array_slice_last target (getArticleUrlsFromPage w (pageUrl (S previous))).
Proof.
  intros Hpos Hlen.
  pose proof (ScraperFacts.getArticleUrlsFromPage_NoDup w (pageUrl (S previous)))
    as Hnd.
  rewrite collect_S.
  destruct (getArticleUrlsFromPage w (pageUrl (S previous))) as [|u us] eqn:Epage;
    [simpl in Hlen; lia|].
  cbn [length]. rewrite Nat.sub_0_r.
  assert (Hlt : (0 <? target) = true) by now apply Nat.ltb_lt.
  rewrite Hlt. cbv zeta.
  assert (Hslice : length (array_slice_last target (u :: us)) = target).
  { unfold array_slice_last. rewrite length_skipn. lia. }
  rewrite (ScraperFacts.fold_add_url_fresh target (array_slice_last target (u :: us)) []).
  - cbn [app]. rewrite Hslice, Nat.ltb_irrefl. reflexivity.
  - cbn [app]. now apply ScraperFacts.NoDup_skipn.
  - cbn [app]. lia.
Qed.

(** X8.  The batch is taken from the last page that has links: listing
    pages without links, or that cannot be fetched, are passed over,
    and when the first page with links has five or more, the batch is
    the last five of that page, in the order of the page. *)
Theorem locateBatch_from_last_page_with_links (w : Web) (k : nat) :
  1 <= k <= findLastPage w ->
  (forall q, k < q <= findLastPage w -> getArticleUrlsFromPage w (pageUrl q) = []) ->
  5 <= length (getArticleUrlsFromPage w (pageUrl k)) ->
  locateBatch w = array_slice_last 5 (getArticleUrlsFromPage w (pageUrl k)).
Proof.
  intros Hk Hempty Hlen. unfold locateBatch, collected.
  rewrite (collect_skip_range w targetCount k (findLastPage w) []) by (lia || exact Hempty).
  destruct k as [|previous]; [lia|].
  rewrite collect_fills by (unfold targetCount; lia).
  apply firstn_all2. unfold array_slice_last, targetCount.
  rewrite length_skipn. lia.
Qed.

Lemma locateBatch_from_last_page_with_links_witness :
  locateBatch (Samples.unreadable_blog Samples.seven_links)
  = array_slice_last 5 Samples.seven_links.
Proof.
  apply (locateBatch_from_last_page_with_links
           (Samples.unreadable_blog Samples.seven_links) 1).
  - cbn. lia.
  - intros q Hq. cbn in Hq. lia.
  - cbn. lia.
Defined.

(** X9.  When the last page has fewer than five links, the batch is all
    of them followed by the tail of the page before: as many of its
    last links as are still missing, in the order of that page. *)
Theorem locateBatch_continues_on_page_before (w : Web) (previous : nat) :
  let last := getArticleUrlsFromPage w (pageUrl (S (S previous))) in
  let before := getArticleUrlsFromPage w (pageUrl (S previous)) in
  let tail := array_slice_last (5 - length last) before in
  findLastPage w = S (S previous) ->
  0 < length last < 5 ->
  5 - length last <= length before ->
  (forall u, In u last -> ~ In u tail) ->
  locateBatch w = last ++ tail.
Proof.
  intros last before tail Hlast Hfew Henough Hdisjoint.
  pose proof (ScraperFacts.getArticleUrlsFromPage_NoDup w (pageUrl (S (S previous))))
    as Hnd_last.
  pose proof (ScraperFacts.getArticleUrlsFromPage_NoDup w (pageUrl (S previous)))
    as Hnd_before.
  fold last in Hnd_last. fold before in Hnd_before.
  assert (Htail : length tail = 5 - length last).
  { unfold tail, array_slice_last. rewrite length_skipn. lia. }
  assert (Hnd : NoDup (last ++ tail)).
  { apply NoDup_app; [exact Hnd_last | now apply ScraperFacts.NoDup_skipn |].
    exact Hdisjoint. }
  unfold locateBatch, collected. rewrite Hlast, collect_S. fold last.
  destruct last as [|u us] eqn:Elast; [simpl in Hfew; lia|].
  cbn [length] in *. rewrite Nat.sub_0_r.
  change (0 <? targetCount) with true. cbv iota zeta.
  change (0 <? targetCount) with true. cbv iota.
  assert (Hwhole : array_slice_last targetCount (u :: us) = u :: us).
  { unfold array_slice_last, targetCount.
    replace (length (u :: us) - 5) with 0 by (cbn [length]; lia). reflexivity. }
  rewrite Hwhole.
  rewrite (ScraperFacts.fold_add_url_fresh targetCount (u :: us) []);
    [|cbn [app]; exact Hnd_last|cbn [app length]; unfold targetCount; lia].
  cbn [app].
  assert (Hshort : (length (u :: us) <? targetCount) = true).
  { apply Nat.ltb_lt. cbn [length]. unfold targetCount. lia. }
  rewrite Hshort, collect_S, Hshort. fold before.
  destruct before as [|b bs] eqn:Ebefore; [cbn [length] in Henough; lia|].
  assert (Hneed : (0 <? targetCount - length (u :: us)) = true).
  { apply Nat.ltb_lt. cbn [length]. unfold targetCount. lia. }
  cbv zeta. rewrite Hneed.
  change (array_slice_last (targetCount - length (u :: us)) (b :: bs)) with tail.
  rewrite (ScraperFacts.fold_add_url_fresh targetCount tail (u :: us));
    [|exact Hnd|rewrite length_app, Htail; cbn [length]; unfold targetCount; lia].
  assert (Hfull : length ((u :: us) ++ tail) = targetCount).
  { rewrite length_app, Htail. cbn [length]. unfold targetCount. lia. }
  rewrite Hfull, (Nat.ltb_irrefl targetCount).
  apply firstn_all2. cbn [app length] in Hfull |- *. lia.
Qed.

Lemma locateBatch_continues_on_page_before_witness :
  locateBatch MoreSamples.two_page_blog
  = (MoreSamples.last_page_links
     ++ [ "https://beyondchats.com/blogs/five/";
          "https://beyondchats.com/blogs/six/";
          "https://beyondchats.com/blogs/seven/" ]%string)%list.
Proof.
  apply (locateBatch_continues_on_page_before MoreSamples.two_page_blog 0).
  - reflexivity.
  - vm_compute. lia.
  - vm_compute. lia.
  - intros u Hin Htail. vm_compute in Hin, Htail.
    repeat (destruct Hin as [<-|Hin];
            [repeat (destruct Htail as [Htail|Htail]; [discriminate Htail|]);
             exact Htail|]).
    exact Hin.
Defined.

(** *** The run as a whole *)

Lemma add_url_length (target : nat) (acc : list string) (u : string) :
  length acc <= length (add_url target acc u).
Proof.
  unfold add_url.
  destruct (negb (in_array u acc) && (length acc <? target)); [|lia].
  rewrite length_app. lia.
Qed.

Lemma fold_add_url_length (target : nat) (us acc : list string) :
  length acc <= length (fold_left (add_url target) us acc).
Proof.
  revert acc. induction us as [|u us IH]; intros acc; [apply Nat.le_refl|].
  cbn [fold_left]. pose proof (add_url_length target acc u).
  specialize (IH (add_url target acc u)). lia.
Qed.

Lemma collect_length (w : Web) (target page : nat) (acc : list string) :
  length acc <= length (collect w target page acc).
Proof.
  revert acc. induction page as [|previous IH]; intros acc; [apply Nat.le_refl|].
  rewrite collect_S.
  destruct (length acc <? target); [|lia].
  destruct (getArticleUrlsFromPage w (pageUrl (S previous))) as [|u us]; [apply IH|].
  cbv zeta.
  set (acc' := if 0 <? target - length acc then _ else acc).
  assert (Hacc : length acc <= length acc').
  { unfold acc'. destruct (0 <? target - length acc); [|lia].
    apply fold_add_url_length. }
  destruct (length acc' <? target); [|exact Hacc].
  specialize (IH acc'). lia.
Qed.

Lemma array_slice_last_cons (n : nat) (u : string) (us : list string) :
  0 < n -> exists x xs, array_slice_last n (u :: us) = x :: xs.
Proof.
  intros Hn. unfold array_slice_last.
  destruct (skipn (length (u :: us) - n) (u :: us)) as [|x xs] eqn:E.
  - apply (f_equal (@length string)) in E. rewrite length_skipn in E.
    cbn [length] in E. lia.
  - now exists x, xs.
Qed.

Lemma collect_some (w : Web) (target page q : nat) :
  0 < target -> 1 <= q <= page ->
  getArticleUrlsFromPage w (pageUrl q) <> [] ->
  collect w target page [] <> [].
Proof.
  intros Htarget. induction page as [|previous IH]; intros Hq Hlinks; [lia|].
  rewrite collect_S. cbn [length]. rewrite Nat.sub_0_r.
  assert (Hlt : (0 <? target) = true) by now apply Nat.ltb_lt.
  rewrite Hlt.
  destruct (getArticleUrlsFromPage w (pageUrl (S previous))) as [|u us] eqn:Epage.
  - apply IH; [|exact Hlinks].
    destruct (Nat.eq_dec q (S previous)) as [->|Hne]; [congruence|lia].
  - cbv zeta.
    destruct (array_slice_last_cons target u us Htarget) as (x & xs & ->).
    assert (Hadd : add_url target [] x = [x]).
    { unfold add_url. cbn [length]. rewrite Hlt. reflexivity. }
    cbn [fold_left]. rewrite Hadd.
    pose proof (fold_add_url_length target xs [x]) as Hlen.
    cbn [length] in Hlen.
    set (acc' := fold_left (add_url target) xs [x]) in *.
    assert (Hacc : acc' <> []).
    { intros E. rewrite E in Hlen. cbn [length] in Hlen. lia. }
    destruct (length acc' <? target); [|exact Hacc].
    pose proof (collect_length w target previous acc') as Hgrow.
    intros E. rewrite E in Hgrow. cbn [length] in Hgrow. lia.
Qed.

Lemma collected_nil (w : Web) :
  collected w = [] <->
  (forall q, 1 <= q <= findLastPage w -> getArticleUrlsFromPage w (pageUrl q) = []).
Proof.
  unfold collected. split.
  - intros Hnone q Hq.
    destruct (getArticleUrlsFromPage w (pageUrl q)) as [|u us] eqn:Epage; [reflexivity|].
    exfalso.
    apply (collect_some w targetCount (findLastPage w) q); try assumption.
    + unfold targetCount. lia.
    + rewrite Epage. discriminate.
  - intros Hempty.
    rewrite (collect_skip_range w targetCount 0 (findLastPage w) []).
    + reflexivity.
    + lia.
    + intros q Hq. apply Hempty. lia.
Qed.

(** X10.  The loop over the listing pages collects no link exactly when
    no page, from the last one down to the first, gives an article
    link; the command then returns [FAILURE] without a look at the
    table: nothing is scraped, nothing skipped, no row changed. *)
Theorem handle_fails_without_links (w : Web) (db : Table) :
  (collected w = [] <->
   forall q, 1 <= q <= findLastPage w -> getArticleUrlsFromPage w (pageUrl q) = [])
  /\ ((forall q, 1 <= q <= findLastPage w -> getArticleUrlsFromPage w (pageUrl q) = []) ->
      handle w db = {| exit_code := FAILURE; table := db; candidates := [];
                       scraped := 0; skipped := 0 |}).
Proof.
  split; [apply collected_nil|].
  intros Hnone. apply collected_nil in Hnone. unfold handle. now rewrite Hnone.
Qed.

Lemma handle_fails_without_links_witness :
  handle MoreSamples.unreachable_blog Samples.one_article
  = {| exit_code := FAILURE; table := Samples.one_article; candidates := [];
       scraped := 0; skipped := 0 |}.
Proof.
  apply (proj2 (handle_fails_without_links
                  MoreSamples.unreachable_blog Samples.one_article)).
  intros q Hq. reflexivity.
Defined.

Lemma scraped_row_incl (w : Web) (urls urls' : list string) (row : Article) :
  incl urls urls' -> scraped_row w urls row -> scraped_row w urls' row.
Proof.
  intros Hincl (Hv & Hr & Hp & Hrefs & url & articleData & Hin & Hrest).
  repeat split; try assumption.
  exists url, articleData. split; [now apply Hincl | exact Hrest].
Qed.

Lemma scrapeArticle_some (w : Web) (url : string) (articleData : ArticleData) :
  scrapeArticle w url = Some articleData ->
  truthy (ad_title articleData) = true /\
  truthy (ad_content articleData) = true /\
  100 <= String.length (ad_content articleData).
Proof.
  unfold scrapeArticle.
  destruct (get_article w url) as [p|]; [|discriminate].
  destruct (scrapeArticle_title p) as [t|]; [|discriminate].
  destruct (scrapeArticle_content w p) as [c|]; [|discriminate].
  destruct (truthy t) eqn:Et; [|discriminate].
  destruct (truthy c) eqn:Ec; [|discriminate].
  cbn [negb orb].
  destruct (String.length c <? 100) eqn:Elen; [discriminate|].
  intros [= <-]. cbn [ad_title ad_content].
  apply Nat.ltb_ge in Elen. repeat split; assumption.
Qed.

(** One turn of the loop over the batch: at most one row is added, at
    the end, and one of the counters moves by one, or none does. *)
Lemma scrape_one_rows (w : Web) (db : Table) (scraped skipped : nat) (url : string) :
  exists rows skipped',
    scrape_one w (db, scraped, skipped) url
    = (db ++ rows, scraped + length rows, skipped') /\
    skipped <= skipped' /\ length rows + skipped' <= S skipped /\
    Forall (scraped_row w [url]) rows /\
    (sound db -> sound (db ++ rows)).
Proof.
  unfold scrape_one.
  destruct (source_url_exists db url) eqn:Eurl.
  { exists [], (S skipped). rewrite app_nil_r, Nat.add_0_r. cbn [length].
    split; [reflexivity|]. split; [lia|]. split; [lia|].
    split; [constructor | trivial]. }
  destruct (scrapeArticle w url) as [articleData|] eqn:Escrape.
  2:{ exists [], skipped. rewrite app_nil_r, Nat.add_0_r. cbn [length].
      split; [reflexivity|]. split; [lia|]. split; [lia|].
      split; [constructor | trivial]. }
  rewrite ScraperFacts.generateUniqueSlug_fresh.
  set (attrs := {| a_title := ad_title articleData; a_version := original |}).
  destruct (Article_create db attrs) as [[row db']|] eqn:Ecreate.
  2:{ exists [], (S skipped). rewrite app_nil_r, Nat.add_0_r. cbn [length].
      split; [reflexivity|]. split; [lia|]. split; [lia|].
      split; [constructor | trivial]. }
  pose proof (StoreMore.Article_create_sound db db' attrs row) as Hsound.
  unfold Article_create in Ecreate.
  destruct (slug_exists db (a_slug attrs) || _); [discriminate|].
  injection Ecreate as <- <-.
  eexists [_], skipped. cbn [length]. rewrite Nat.add_1_r.
  split; [reflexivity|]. split; [lia|]. split; [lia|]. split.
  - constructor; [|constructor].
    destruct (scrapeArticle_some w url articleData Escrape) as (Ht & _ & Hlen).
    repeat split.
    exists url, articleData. cbn [source_url title content attrs a_source_url
                                  a_title a_content].
    repeat split; try assumption. now left.
  - intros Hdb. apply Hsound; [exact Hdb| |].
    + intros p. cbn [a_parent_article_id attrs]. discriminate.
    + unfold Article_create.
      destruct (slug_exists db (a_slug attrs) || _) eqn:E; [|reflexivity].
      exfalso. revert E. cbn [a_slug a_source_url attrs].
      rewrite ScraperFacts.generateUniqueSlug_fresh, Eurl. discriminate.
Qed.

Lemma fold_scrape_rows (w : Web) (urls : list string) (db : Table)
      (scraped skipped : nat) :
  exists rows skipped',
    fold_left (scrape_one w) urls (db, scraped, skipped)
    = (db ++ rows, scraped + length rows, skipped') /\
    skipped <= skipped' /\ length rows + skipped' <= length urls + skipped /\
    Forall (scraped_row w urls) rows /\
    (sound db -> sound (db ++ rows)).
Proof.
  revert db scraped skipped.
  induction urls as [|url urls IH]; intros db scraped skipped.
  - exists [], skipped. rewrite app_nil_r, Nat.add_0_r. cbn [length fold_left].
    split; [reflexivity|]. split; [lia|]. split; [lia|].
    split; [constructor | trivial].
  - cbn [fold_left].
    destruct (scrape_one_rows w db scraped skipped url)
      as (rows1 & skipped1 & -> & Hs1 & Hc1 & Hrows1 & Hsound1).
    destruct (IH (db ++ rows1) (scraped + length rows1) skipped1)
      as (rows2 & skipped2 & E2 & Hs2 & Hc2 & Hrows2 & Hsound2).
    exists (rows1 ++ rows2), skipped2.
    split; [|split; [lia|split; [rewrite length_app; cbn [length]; lia|split]]].
    + etransitivity; [exact E2|].
      now rewrite length_app, app_assoc, Nat.add_assoc.
    + apply Forall_app. split.
      * eapply Forall_impl; [|exact Hrows1]. intros row.
        apply scraped_row_incl. intros x [<-|[]]. now left.
      * eapply Forall_impl; [|exact Hrows2]. intros row.
        apply scraped_row_incl. intros x Hx. now right.
    + intros Hdb. rewrite app_assoc. auto.
Qed.

(** X11.  A run only adds rows, at the end of the table, one for each
    article it counts as scraped.  Every new row is an original that is
    not flagged, has no parent and no references, carries the link of
    the batch it was read from, the title and the content scraped from
    that link, a title that is not empty and at least 100 bytes of
    content.  Scraped and skipped together never exceed the batch, and
    the batch never exceeds five links. *)
Theorem handle_appends_scraped_rows (w : Web) (db : Table) :
  exists rows,
    table (handle w db) = db ++ rows /\
    length rows = scraped (handle w db) /\
    Forall (scraped_row w (locateBatch w)) rows /\
    scraped (handle w db) + skipped (handle w db) <= length (locateBatch w) /\
    length (locateBatch w) <= 5.
Proof.
  assert (Hfive : length (locateBatch w) <= 5).
  { unfold locateBatch. rewrite length_firstn. unfold targetCount. lia. }
  unfold handle.
  destruct (collected w) as [|u us] eqn:Ecollected.
  - exists []. cbn [table scraped skipped length]. rewrite app_nil_r.
    repeat split; auto. lia.
  - cbv zeta.
    destruct (fold_scrape_rows w (locateBatch w) db 0 0)
      as (rows & skipped' & -> & _ & Hcount & Hrows & _).
    exists rows. cbn [table scraped skipped].
    repeat split; auto. lia.
Qed.

(** X12.  A run keeps the invariants of the table: started on a table
    with distinct keys, slugs and source links, it ends on one. *)
Theorem handle_keeps_table_sound (w : Web) (db : Table) :
  sound db -> sound (table (handle w db)).
Proof.
  intros Hdb. unfold handle.
  destruct (collected w) as [|u us] eqn:Ecollected; [exact Hdb|].
  cbv zeta.
  destruct (fold_scrape_rows w (locateBatch w) db 0 0)
    as (rows & skipped' & -> & _ & _ & _ & Hsound).
  cbn [table]. now apply Hsound.
Qed.

Lemma handle_keeps_table_sound_witness :
  sound (table (handle MoreSamples.two_page_blog Samples.one_article)).
Proof.
  apply (handle_keeps_table_sound MoreSamples.two_page_blog Samples.one_article).
  constructor.
  - repeat constructor. intros [].
  - repeat constructor.
  - repeat constructor. intros [].
  - repeat constructor. intros [].
  - repeat constructor.
Defined.

End ScraperMore.

(** ** The rewriting script, further *)

Module RewriterMore.
Import Str Store Rewriter Integrity Pipeline.
Local Open Scope list_scope.

(** *** The retry loop *)

Lemma gemini_loop_recovers (env : Env) (prompt : string) (k : nat) (text : string) :
  forall (retries remaining i : nat) (w : World),
  i + remaining = retries -> k < remaining ->
  (forall j, j < k ->
             exists st, gemini env (llm_calls w + j) (request_text prompt)
                        = Failure (HttpError 429 st)) ->
  gemini env (llm_calls w + k) (request_text prompt) = Answer (Some text) ->
  truthy text = true ->
  gemini_loop env prompt retries remaining i w
  = (Return (Some (trim text)),
     {| articles := articles w;
        llm_calls := llm_calls w + S k;
        waited := waited w ++ map backoff (seq i k) |}).
Proof.
  induction k as [|k IH]; intros retries remaining i w Hsum Hk Hlimited Hanswer Htext;
    (destruct remaining as [|remaining]; [lia|]);
    cbn [gemini_loop]; unfold gemini_attempt.
  - rewrite Nat.add_0_r in Hanswer. rewrite Hanswer, Htext.
    unfold count_call. cbn [seq map]. rewrite app_nil_r, Nat.add_1_r. reflexivity.
  - destruct (Hlimited 0 ltac:(lia)) as [st Hst]. rewrite Nat.add_0_r in Hst.
    rewrite Hst. cbn [is_rate_limit Nat.eqb andb].
    assert (Hlt : (i <? retries - 1) = true) by (apply Nat.ltb_lt; lia).
    rewrite Hlt. cbv zeta.
    rewrite (IH retries remaining (S i) (wait (backoff i) (count_call w)));
      try lia; try assumption.
    + cbn [articles llm_calls waited wait count_call seq map].
      rewrite <- app_assoc. do 2 f_equal. lia.
    + intros j Hj. destruct (Hlimited (S j) ltac:(lia)) as [st' E].
      exists st'. cbn [llm_calls wait count_call]. rewrite <- E. f_equal. lia.
    + cbn [llm_calls wait count_call]. rewrite <- Hanswer. f_equal. lia.
Qed.

(** X13.  The Gemini backend recovers from rate limits: when its first
    [k] requests are answered with status 429 and the next one with a
    text, for [k] below the bound, the text is returned trimmed after
    [k + 1] requests, with the delays 10000 ms, 20000 ms, ... waited
    between them, and the table is not touched. *)
Theorem gemini_answers_after_rate_limits
        (env : Env) (prompt : string) (retries k : nat) (text : string) (w : World) :
  k < retries ->
  (forall j, j < k ->
             exists st, gemini env (llm_calls w + j) (request_text prompt)
                        = Failure (HttpError 429 st)) ->
  gemini env (llm_calls w + k) (request_text prompt) = Answer (Some text) ->
  truthy text = true ->
  rewriteWithGoogleGemini env prompt retries w
  = (Return (Some (trim text)),
     {| articles := articles w;
        llm_calls := llm_calls w + S k;
        waited := waited w ++ map backoff (seq 0 k) |}).
Proof.
  intros Hk Hlimited Hanswer Htext. unfold rewriteWithGoogleGemini.
  now apply gemini_loop_recovers.
Qed.

Lemma gemini_answers_after_rate_limits_witness :
  rewriteWithGoogleGemini (Samples.world_of "google" 2 Samples.plain_text)
                          "Rewrite this." 3 Samples.start
  = (Return (Some Samples.plain_text),
     {| articles := Samples.one_article;
        llm_calls := 3;
        waited := [10000; 20000]%Z |}).
Proof.
  apply (gemini_answers_after_rate_limits
           (Samples.world_of "google" 2 Samples.plain_text)
           "Rewrite this." 3 2 Samples.plain_text Samples.start).
  - lia.
  - intros j Hj. exists "Too Many Requests"%string.
    destruct j as [|[|j]]; [reflexivity | reflexivity | lia].
  - reflexivity.
  - reflexivity.
Defined.

(** *** What a run leaves in the table *)

Lemma validate_fields (fw : Framework) (db : Table) (r : Request) (attrs : Attributes) :
  validate fw db r = Some attrs ->
  req_content r = Some (a_content attrs) /\
  a_references attrs = req_references r /\
  a_source_url attrs = req_source_url r.
Proof.
  unfold validate.
  destruct (req_title r) as [t|]; [|discriminate].
  destruct (req_content r) as [c|]; [|discriminate].
  destruct (req_version r) as [v|]; [|discriminate].
  destruct (parse_version v) as [ver|]; [|discriminate].
  destruct (_ && _); [|discriminate].
  intros [= <-]. repeat split.
Qed.

Lemma Article_create_fields (db db1 : Table) (attrs : Attributes) (a : Article) :
  Article_create db attrs = Some (a, db1) ->
  Store.content a = a_content attrs /\ references a = a_references attrs /\
  source_url a = a_source_url attrs.
Proof.
  unfold Article_create. destruct (_ || _); [discriminate|].
  intros [= <- <-]. repeat split.
Qed.

Lemma find_In (db : Table) (a : Article) :
  NoDup (map id db) -> In a db -> find db (id a) = Some a.
Proof.
  unfold find. induction db as [|x db IH]; intros Hnd Hin; [contradiction|].
  cbn [map] in Hnd. apply NoDup_cons_iff in Hnd as [Hfresh Hnd].
  cbn [List.find]. destruct Hin as [->|Hin].
  - now rewrite Nat.eqb_refl.
  - destruct (id x =? id a) eqn:E; [|now apply IH].
    apply Nat.eqb_eq in E. exfalso. apply Hfresh. rewrite E.
    now apply in_map.
Qed.

Lemma unrewritten_flagged (a : Article) : unrewritten (set_is_rewritten a) = false.
Proof. unfold unrewritten. cbn [is_rewritten set_is_rewritten]. apply andb_false_r. Qed.

(** [latest] serves the last of the articles that wait. *)
Lemma latest_last (db : Table) (a : Article) :
  latest db = Some a -> exists front, waiting db = front ++ [a].
Proof.
  unfold latest, waiting. induction db as [|x db IH] using rev_ind; [discriminate|].
  rewrite rev_app_distr, filter_app. cbn [rev app List.find filter].
  destruct (unrewritten x).
  - intros [= <-]. now exists (filter unrewritten db).
  - intros H. destruct (IH H) as [front E]. exists front.
    now rewrite E, app_nil_r.
Qed.

(** Flagging a row takes it, and nothing else, out of the articles that
    wait. *)
Lemma waiting_mark (db : Table) (p : nat) :
  waiting (mark_rewritten db p) = filter (fun x => negb (id x =? p)) (waiting db).
Proof.
  unfold waiting, mark_rewritten. induction db as [|x db IH]; [reflexivity|].
  cbn [map filter]. rewrite IH. destruct (id x =? p) eqn:E.
  - rewrite unrewritten_flagged.
    destruct (unrewritten x); [|reflexivity]. cbn [filter]. now rewrite E.
  - destruct (unrewritten x); [|reflexivity]. cbn [filter]. now rewrite E.
Qed.

Lemma scrape_reference_length (env : Env) (references : list Reference) (u : string) :
  length (scrape_reference env references u) <= S (length references).
Proof.
  unfold scrape_reference.
  destruct (scrapeArticle env u) as [c|e]; [|lia].
  destruct (_ && _); [|lia]. rewrite length_app. cbn [length]. lia.
Qed.

Lemma fold_scrape_reference_length (env : Env) (urls : list string)
      (references : list Reference) :
  length (fold_left (scrape_reference env) urls references)
  <= length urls + length references.
Proof.
  revert references. induction urls as [|u urls IH]; intros references;
    cbn [fold_left length]; [lia|].
  specialize (IH (scrape_reference env references u)).
  pose proof (scrape_reference_length env references u). lia.
Qed.

Lemma scrapeReferenceArticles_length (env : Env) (urls : list string) :
  length (scrapeReferenceArticles env urls) <= 2.
Proof.
  unfold scrapeReferenceArticles.
  pose proof (length_firstn 2 (filter reference_candidate urls)) as Hlen.
  destruct (firstn 2 (filter reference_candidate urls)) as [|u us] eqn:E;
    [cbn [length]; lia|].
  pose proof (fold_scrape_reference_length env (u :: us) []) as H.
  cbn [length] in *. lia.
Qed.

(** The steps of a run that reports success. *)
Lemma rewriteLatest_success (env : Env) (w : World) (o n : nat) :
  fst (rewriteLatest env w) = Return (Rewritten o n) ->
  exists source refs text w1 stored db',
    fetchLatestArticle w = Some source /\
    refs = scrapeReferenceArticles env (googleSearch env (Store.title source)) /\
    refs <> [] /\
    rewriteWithLLM env source refs w = (Return text, w1) /\
    store (framework env) (articles w1) (rewrite_request source text refs)
    = (Created stored, db') /\
    snd (rewriteLatest env w) = set_articles db' w1 /\
    id source = o /\ id stored = n.
Proof.
  unfold rewriteLatest.
  destruct (fetchLatestArticle w) as [source|] eqn:Hlatest; [|discriminate].
  destruct (scrapeReferenceArticles env _) as [|ref refs] eqn:Hrefs; [discriminate|].
  destruct (rewriteWithLLM env source (ref :: refs) w) as [[text|e] w1] eqn:Hllm;
    [|discriminate].
  unfold publishArticle.
  destruct (store (framework env) (articles w1)
                  (rewrite_request source text (ref :: refs)))
    as [[stored| |] db'] eqn:Estore; cbn [fst snd]; try discriminate.
  intros [= <- <-].
  exists source, (ref :: refs), text, w1, stored, db'.
  repeat split; try assumption; try reflexivity; [now symmetry | discriminate].
Qed.

(** X14.  A run that reports success on a sound table adds one row, the
    rewrite, at the end: of version [rewritten], not flagged, with the
    source as its parent, the text [rewriteWithLLM] returned as its
    content, and as its references the links of the one or two
    references that were scraped, in their order.  It flags the source
    and changes no other row.  The source was one of the articles that
    waited for a rewrite; the others wait as before, in their order. *)
Theorem successful_run_settles_source (env : Env) (w : World) (o n : nat) :
  sound (articles w) ->
  fst (rewriteLatest env w) = Return (Rewritten o n) ->
  exists source stored,
    let refs := scrapeReferenceArticles env (googleSearch env (Store.title source)) in
    fetchLatestArticle w = Some source /\ id source = o /\ id stored = n /\
    articles (snd (rewriteLatest env w)) = mark_rewritten (articles w) o ++ [stored] /\
    version stored = rewritten /\ is_rewritten stored = false /\
    parent_article_id stored = Some o /\
    references stored = Some (map url refs) /\
    1 <= length refs <= 2 /\
    (exists w1, rewriteWithLLM env source refs w = (Return (Store.content stored), w1)) /\
    find (articles (snd (rewriteLatest env w))) o = Some (set_is_rewritten source) /\
    In source (waiting (articles w)) /\
    waiting (articles (snd (rewriteLatest env w)))
    = filter (fun x => negb (id x =? o)) (waiting (articles w)).
Proof.
  intros [Hkeys Hpos _ _ _] Hrun.
  destruct (rewriteLatest_success env w o n Hrun)
    as (source & refs & text & w1 & stored & db' & Hlatest & Hrefs & Hsome & Hllm
        & Hstore & -> & Ho & Hn).
  pose proof (RewriterFacts.rewriteWithLLM_articles env source refs w) as Hsame.
  rewrite Hllm in Hsame. cbn [snd] in Hsame. rewrite Hsame in Hstore.
  destruct (RewriterFacts.latest_some _ _ Hlatest) as [Hin Hun].
  assert (Hpositive : 0 < id source).
  { rewrite Forall_forall in Hpos. now apply Hpos. }
  apply StoreFacts.store_table in Hstore as (attrs & Ev & Ec & ->).
  destruct (StoreFacts.Article_create_some _ _ _ _ Ec) as (_ & Hid & _ & Hv & Hp & Hflag).
  destruct (Article_create_fields _ _ _ _ Ec) as (Hc & Hr & _).
  destruct (StoreFacts.validate_some _ _ _ _ Ev) as (_ & _ & (v & Hv1 & Hv2) & Hp2 & _).
  destruct (validate_fields _ _ _ _ Ev) as (Hc2 & Hr2 & _).
  cbn [rewrite_request req_version req_parent_article_id req_references
       req_content] in *.
  injection Hv1 as <-. injection Hc2 as Hc2.
  rewrite (StoreFacts.parse_version_rewritten _ _ Hv2 eq_refl) in Hv.
  rewrite Hp2 in Hp. rewrite Hr2 in Hr. rewrite <- Hc2 in Hc. rewrite Hp, Hv.
  assert (E0 : (id source =? 0) = false) by (apply Nat.eqb_neq; lia).
  rewrite E0. cbn [is_rewritten_version negb andb set_articles articles].
  subst o n.
  exists source, stored. cbv zeta. rewrite <- Hrefs.
  split; [exact Hlatest|]. split; [reflexivity|]. split; [reflexivity|].
  split; [reflexivity|]. split; [exact Hv|]. split; [exact Hflag|].
  split; [exact Hp|]. split; [exact Hr|]. split.
  { pose proof (scrapeReferenceArticles_length env (googleSearch env (Store.title source)))
      as Hlen.
    rewrite <- Hrefs in Hlen. destruct refs; [congruence|]. cbn [length] in *. lia. }
  split; [exists w1; now rewrite Hc|]. split.
  { apply StoreFacts.find_app_some.
    rewrite StoreFacts.find_mark_rewritten, (find_In _ _ Hkeys Hin). reflexivity. }
  split; [now apply filter_In|].
  unfold waiting at 1. rewrite filter_app. cbn [filter].
  unfold unrewritten at 2. rewrite Hv. cbn [is_rewritten_version negb andb].
  rewrite app_nil_r. apply waiting_mark.
Qed.

Lemma successful_run_settles_source_witness :
  exists source stored,
    let refs := scrapeReferenceArticles
                  (Samples.world_of "ollama" 0 Samples.plain_text)
                  (googleSearch (Samples.world_of "ollama" 0 Samples.plain_text)
                                (Store.title source)) in
    fetchLatestArticle Samples.start = Some source /\ id source = 1 /\ id stored = 2 /\
    articles (snd (rewriteLatest (Samples.world_of "ollama" 0 Samples.plain_text)
                                 Samples.start))
    = mark_rewritten (articles Samples.start) 1 ++ [stored] /\
    version stored = rewritten /\ is_rewritten stored = false /\
    parent_article_id stored = Some 1 /\
    references stored = Some (map url refs) /\
    1 <= length refs <= 2 /\
    (exists w1, rewriteWithLLM (Samples.world_of "ollama" 0 Samples.plain_text)
                               source refs Samples.start
                = (Return (Store.content stored), w1)) /\
    find (articles (snd (rewriteLatest (Samples.world_of "ollama" 0 Samples.plain_text)
                                       Samples.start))) 1
    = Some (set_is_rewritten source) /\
    In source (waiting (articles Samples.start)) /\
    waiting (articles (snd (rewriteLatest
                              (Samples.world_of "ollama" 0 Samples.plain_text)
                              Samples.start)))
    = filter (fun x => negb (id x =? 1)) (waiting (articles Samples.start)).
Proof.
  apply (successful_run_settles_source
           (Samples.world_of "ollama" 0 Samples.plain_text) Samples.start 1 2).
  - constructor.
    + repeat constructor. intros [].
    + repeat constructor.
    + repeat constructor. intros [].
    + repeat constructor. intros [].
    + repeat constructor.
  - reflexivity.
Defined.

Lemma validate_long_title (fw : Framework) (db : Table) (r : Request) (t : string) :
  req_title r = Some t -> 255 < String.length t -> validate fw db r = None.
Proof.
  intros Ht Hlen. unfold validate. rewrite Ht.
  destruct (req_content r) as [c|]; [|reflexivity].
  destruct (req_version r) as [v|]; [|reflexivity].
  destruct (parse_version v) as [ver|]; [|reflexivity].
  assert (E : (String.length t <=? 255) = false) by (apply Nat.leb_gt; lia).
  rewrite E, andb_false_r. reflexivity.
Qed.

(** X15.  An article whose title, of ASCII characters, is longer than
    243 characters is never rewritten: the title of its rewrite, 12
    longer, is refused by the rule [max:255] of the service.  A run on it reports no success
    and leaves the table as it was, so the next run fetches the same
    article again; when the backend has answered, the run ends in the
    error of the publication. *)
Theorem long_title_is_never_rewritten (env : Env) (w : World) (article : Article) :
  fetchLatestArticle w = Some article ->
  Plain.ascii_only (Store.title article) = true ->
  243 < String.length (Store.title article) ->
  (forall o n, fst (rewriteLatest env w) <> Return (Rewritten o n)) /\
  articles (snd (rewriteLatest env w)) = articles w /\
  fetchLatestArticle (snd (rewriteLatest env w)) = Some article /\
  (forall text w1,
      let refs := scrapeReferenceArticles env (googleSearch env (Store.title article)) in
      refs <> [] ->
      rewriteWithLLM env article refs w = (Return text, w1) ->
      fst (rewriteLatest env w)
      = Throw (Err "Failed to publish article: Request failed with status code 422")).
Proof.
  intros Hlatest _ Hlong.
  assert (Hrefused : forall text refs db,
             store (framework env) db (rewrite_request article text refs)
             = (ValidationFailed, db)).
  { intros text refs db. unfold store.
    rewrite (validate_long_title _ _ _ (Store.title article ++ " (Rewritten)"));
      [reflexivity | reflexivity |].
    rewrite StrFacts.length_append. cbn [String.length]. lia. }
  assert (Htable : articles (snd (rewriteLatest env w)) = articles w
                   /\ forall o n, fst (rewriteLatest env w) <> Return (Rewritten o n)).
  { unfold rewriteLatest. rewrite Hlatest.
    destruct (scrapeReferenceArticles env _) as [|ref refs];
      [split; [reflexivity | discriminate]|].
    pose proof (RewriterFacts.rewriteWithLLM_articles env article (ref :: refs) w) as Hllm.
    destruct (rewriteWithLLM env article (ref :: refs) w) as [[text|e] w1];
      cbn [snd] in Hllm; [|split; [exact Hllm | discriminate]].
    unfold publishArticle. rewrite Hrefused.
    cbn [fst snd set_articles articles]. split; [exact Hllm | discriminate]. }
  destruct Htable as [Htable Hnever].
  split; [exact Hnever|]. split; [exact Htable|]. split.
  - unfold fetchLatestArticle in *. now rewrite Htable.
  - intros text w1 refs Hsome Hllm. unfold rewriteLatest. rewrite Hlatest.
    fold refs. destruct refs as [|ref refs']; [congruence|].
    rewrite Hllm. unfold publishArticle. rewrite Hrefused. reflexivity.
Qed.

Lemma long_title_is_never_rewritten_witness :
  fst (rewriteLatest (Samples.world_of "ollama" 0 Samples.plain_text)
                     MoreSamples.wordy_start)
  = Throw (Err "Failed to publish article: Request failed with status code 422").
Proof.
  destruct (long_title_is_never_rewritten
              (Samples.world_of "ollama" 0 Samples.plain_text)
              MoreSamples.wordy_start MoreSamples.wordy_article eq_refl eq_refl)
    as (_ & _ & _ & H); [vm_compute; lia|].
  eapply H.
  - vm_compute. discriminate.
  - lazy. reflexivity.
Defined.

(** X16.  A run changes the table exactly when it reports success: a run
    that finds no article or no reference, or that ends in an error,
    leaves every row as it was, and a run that reports success has
    added a row. *)
Theorem run_changes_table_iff_success (env : Env) (w : World) :
  articles (snd (rewriteLatest env w)) = articles w <->
  (forall o n, fst (rewriteLatest env w) <> Return (Rewritten o n)).
Proof.
  split.
  - intros Hsame o n Hrun.
    destruct (rewriteLatest_success env w o n Hrun)
      as (source & refs & text & w1 & stored & db' & _ & _ & _ & Hllm
          & Hstore & Hw & _).
    pose proof (RewriterFacts.rewriteWithLLM_articles env source refs w) as Hkeep.
    rewrite Hllm in Hkeep. cbn [snd] in Hkeep. rewrite Hkeep in Hstore.
    rewrite Hw in Hsame. cbn [set_articles articles] in Hsame. subst db'.
    apply StoreFacts.store_table in Hstore as (attrs & _ & _ & Hdb).
    apply (f_equal (@length Article)) in Hdb.
    destruct (parent_article_id stored) as [p|];
      [destruct (_ && _)|];
      rewrite length_app in Hdb; unfold mark_rewritten in Hdb;
      try rewrite length_map in Hdb; cbn [length] in Hdb; lia.
  - intros Hnever. pose proof (RewriterFacts.rewriteLatest_table env w) as H.
    destruct (fst (rewriteLatest env w)) as [[| |o n]|e]; try exact H.
    now destruct (Hnever o n).
Qed.

(** X24.  A run keeps the invariants of the table, whatever it returns
    or throws: started on a table with distinct keys, slugs and source
    links whose parents exist, it ends on one. *)
Theorem rewriteLatest_keeps_table_sound (env : Env) (w : World) :
  sound (articles w) -> sound (articles (snd (rewriteLatest env w))).
Proof.
  intros Hsound.
  pose proof (RewriterFacts.rewriteLatest_table env w) as Htable.
  destruct (fst (rewriteLatest env w)) as [[| |o n]|e] eqn:Hrun;
    try (rewrite Htable; exact Hsound).
  clear Htable.
  destruct (rewriteLatest_success env w o n Hrun)
    as (source & refs & text & w1 & stored & db' & _ & _ & _ & Hllm
        & Hstore & -> & _ & _).
  pose proof (RewriterFacts.rewriteWithLLM_articles env source refs w) as Hsame.
  rewrite Hllm in Hsame. cbn [snd] in Hsame. rewrite Hsame in Hstore.
  cbn [set_articles articles].
  apply StoreFacts.store_table in Hstore as (attrs & Ev & Ec & ->).
  destruct (StoreFacts.validate_some _ _ _ _ Ev) as (_ & _ & _ & Hpar & Hex).
  assert (Hnew : sound (articles w ++ [stored])).
  { apply (StoreMore.Article_create_sound (articles w) (articles w ++ [stored])
                                          attrs stored Hsound); [|exact Ec].
    intros p Hp. apply Hex. now rewrite <- Hpar. }
  destruct (parent_article_id stored) as [p|] eqn:Ep; [|exact Hnew].
  destruct (is_rewritten_version (version stored) && negb (p =? 0)); [|exact Hnew].
  destruct (StoreFacts.Article_create_some _ _ _ _ Ec) as (_ & Hid & _ & _ & Hpa & _).
  destruct (Hex p) as [parent Hparent]; [now rewrite <- Hpar, <- Hpa|].
  destruct (StoreFacts.find_some_id _ _ _ Hparent) as [Hin Hidp].
  pose proof (StoreFacts.id_below_next (articles w) parent Hin) as Hlt.
  replace (mark_rewritten (articles w) p ++ [stored])
    with (mark_rewritten (articles w ++ [stored]) p).
  - now apply StoreMore.mark_rewritten_sound.
  - rewrite StoreFacts.mark_rewritten_app. f_equal.
    apply StoreFacts.mark_rewritten_other. intros x [<-|[]]. lia.
Qed.

Lemma rewriteLatest_keeps_table_sound_witness :
  sound (articles (snd (rewriteLatest (Samples.world_of "ollama" 0 Samples.plain_text)
                                      Samples.start))).
Proof.
  apply (rewriteLatest_keeps_table_sound
           (Samples.world_of "ollama" 0 Samples.plain_text) Samples.start).
  constructor.
  - repeat constructor. intros [].
  - repeat constructor.
  - repeat constructor. intros [].
  - repeat constructor. intros [].
  - repeat constructor.
Defined.

Lemma filter_none {A : Type} (f : A -> bool) (l : list A) :
  (forall x, In x l -> f x = false) -> filter f l = [].
Proof.
  induction l as [|x l IH]; intros H; [reflexivity|].
  cbn [filter]. rewrite (H x) by now left. apply IH. intros y Hy. apply H. now right.
Qed.

Lemma latest_none (db : Table) : latest db = None <-> waiting db = [].
Proof.
  split.
  - intros H. apply filter_none. intros x Hx.
    apply (find_none _ _ H). now apply in_rev in Hx.
  - intros H. destruct (latest db) as [a|] eqn:E; [|reflexivity].
    destruct (latest_last db a E) as [front Hfront].
    rewrite H in Hfront. now destruct front.
Qed.

(** X25.  The run reports that there is no article exactly when no
    original waits for a rewrite: [GET /api/articles/latest] answers
    404, nothing is searched, no backend is asked and nothing is
    written. *)
Theorem no_article_waits_no_run (env : Env) (w : World) :
  (latest (articles w) = None <-> waiting (articles w) = []) /\
  (fst (rewriteLatest env w) = Return NoArticles <-> waiting (articles w) = []) /\
  (waiting (articles w) = [] -> rewriteLatest env w = (Return NoArticles, w)).
Proof.
  split; [apply latest_none|].
  rewrite <- latest_none. unfold rewriteLatest, fetchLatestArticle.
  destruct (latest (articles w)) as [article|]; [|now repeat split].
  split; [split; [|discriminate] | discriminate].
  destruct (scrapeReferenceArticles env _) as [|ref refs]; [discriminate|].
  destruct (rewriteWithLLM env article (ref :: refs) w) as [[text|e] w1];
    [|discriminate].
  destruct (publishArticle env _ w1) as [[published|e] w2]; discriminate.
Qed.

(** *** The references *)


Lemma or_untitled_truthy (t : string) : or_untitled t <> "".
Proof.
  unfold or_untitled, truthy.
  destruct (String.eqb_spec t ""); cbn [negb]; [discriminate | assumption].
Qed.

(** *** The text that is published *)





(** *** The text of a scraped page *)

Lemma trimEnd_cons (ws : ascii -> bool) (c : ascii) (s : string) :
  trimEnd ws (String c s)
  = match trimEnd ws s with
    | EmptyString => if ws c then EmptyString else String c EmptyString
    | t => String c t
    end.
Proof. reflexivity. Qed.

Lemma trimEnd_idempotent (ws : ascii -> bool) (s : string) :
  trimEnd ws (trimEnd ws s) = trimEnd ws s.
Proof.
  induction s as [|c s IH]; [reflexivity|].
  rewrite (trimEnd_cons ws c s). destruct (trimEnd ws s) as [|d t] eqn:E.
  - destruct (ws c) eqn:Ec; [reflexivity|]. cbn [trimEnd]. now rewrite Ec.
  - rewrite trimEnd_cons, IH. reflexivity.
Qed.

Lemma trimStart_head (ws : ascii -> bool) (s : string) :
  match trimStart ws s with
  | EmptyString => True
  | String c _ => ws c = false
  end.
Proof.
  induction s as [|c s IH]; [exact I|].
  cbn [trimStart]. destruct (ws c) eqn:E; [exact IH | exact E].
Qed.

Lemma trimStart_trimEnd (ws : ascii -> bool) (s : string) :
  match s with
  | EmptyString => True
  | String c _ => ws c = false
  end ->
  trimStart ws (trimEnd ws s) = trimEnd ws s.
Proof.
  destruct s as [|c s]; [reflexivity|]. intros Hc.
  rewrite trimEnd_cons. destruct (trimEnd ws s) as [|d t].
  - rewrite Hc. cbn [trimStart]. now rewrite Hc.
  - cbn [trimStart]. now rewrite Hc.
Qed.

Lemma trim_with_idempotent (ws : ascii -> bool) (s : string) :
  trim_with ws (trim_with ws s) = trim_with ws s.
Proof.
  unfold trim_with.
  rewrite trimStart_trimEnd by apply trimStart_head.
  apply trimEnd_idempotent.
Qed.

Lemma trimStart_suffix (ws : ascii -> bool) (s : string) :
  exists pre, s = (pre ++ trimStart ws s)%string.
Proof.
  induction s as [|c s [pre IH]]; [now exists ""%string|].
  cbn [trimStart]. destruct (ws c).
  - exists (String c pre). cbn [String.append]. now rewrite <- IH.
  - now exists ""%string.
Qed.

Lemma trimEnd_prefix (ws : ascii -> bool) (s : string) :
  exists post, s = (trimEnd ws s ++ post)%string.
Proof.
  induction s as [|c s [post IH]]; [now exists ""%string|].
  rewrite trimEnd_cons. destruct (trimEnd ws s) as [|d t].
  - destruct (ws c).
    + exists (String c s). reflexivity.
    + exists s. reflexivity.
  - exists post. cbn [String.append] in *. now rewrite <- IH.
Qed.

Lemma has_char_append (p : ascii -> bool) (a b : string) :
  has_char p (a ++ b) = has_char p a || has_char p b.
Proof.
  induction a as [|c a IH]; cbn [has_char String.append]; [reflexivity|].
  now rewrite IH, orb_assoc.
Qed.

(** What [trim] leaves was in the string. *)
Lemma trim_with_part (ws : ascii -> bool) (s : string) :
  exists pre post, s = (pre ++ trim_with ws s ++ post)%string.
Proof.
  unfold trim_with.
  destruct (trimStart_suffix ws s) as [pre Hpre].
  destruct (trimEnd_prefix ws (trimStart ws s)) as [post Hpost].
  exists pre, post. now rewrite <- Hpost.
Qed.

Lemma trim_with_has_char (ws p : ascii -> bool) (s : string) :
  has_char p s = false -> has_char p (trim_with ws s) = false.
Proof.
  destruct (trim_with_part ws s) as (pre & post & E). intros H.
  rewrite E, !has_char_append in H.
  apply orb_false_elim in H as [_ H]. now apply orb_false_elim in H as [H _].
Qed.

Lemma trim_with_includes (ws : ascii -> bool) (sub s : string) :
  includes sub s = false -> includes sub (trim_with ws s) = false.
Proof.
  rewrite !StrFacts.includes_false. intros H (pre & post & E). apply H.
  destruct (trim_with_part ws s) as (a & b & Es).
  exists (a ++ pre)%string, (post ++ b)%string.
  rewrite Es at 1. rewrite E. now rewrite !StrFacts.append_assoc.
Qed.

Lemma collapse_blanks_no_tab (in_run : bool) (s : string) :
  has_char (code_in [9]) (collapse_blanks_from in_run s) = false.
Proof.
  revert in_run. induction s as [|c s IH]; intros in_run; [reflexivity|].
  cbn [collapse_blanks_from]. destruct (is_blank c) eqn:Ec.
  - destruct in_run; [apply IH|]. cbn [has_char]. rewrite IH. reflexivity.
  - cbn [has_char]. rewrite IH, orb_false_r.
    unfold is_blank, code_in in *. cbn [existsb] in *.
    apply orb_false_elim in Ec as [_ Ec]. exact Ec.
Qed.

Lemma prefix_two_spaces (c : ascii) (s : string) :
  is_blank c = false -> String.prefix "  " (String c s) = false.
Proof.
  intros Hc. cbn [String.prefix].
  destruct (ascii_dec " " c) as [<-|_]; [discriminate Hc | reflexivity].
Qed.

Lemma collapse_blanks_single (in_run : bool) (s : string) :
  includes "  " (if in_run then String " " (collapse_blanks_from in_run s)
                 else collapse_blanks_from in_run s) = false.
Proof.
  revert in_run. induction s as [|c s IH]; intros in_run;
    [now destruct in_run|].
  cbn [collapse_blanks_from]. destruct (is_blank c) eqn:Ec.
  - destruct in_run; exact (IH true).
  - assert (Hrest : includes "  " (String c (collapse_blanks_from false s)) = false).
    { rewrite StrFacts.includes_cons, prefix_two_spaces by exact Ec. exact (IH false). }
    destruct in_run; [|exact Hrest].
    rewrite StrFacts.includes_cons.
    replace (String.prefix "  " (String " " (String c (collapse_blanks_from false s))))
      with (String.prefix " " (String c (collapse_blanks_from false s)))
      by reflexivity.
    cbn [String.prefix].
    destruct (ascii_dec " " c) as [<-|_]; [discriminate Ec | exact Hrest].
Qed.

(** Plain text stays plain through the steps of [scrapeArticle]. *)
Lemma content_loop_plain (page : Page) (selectors : list string) (content : string) :
  Plain.ascii_page page -> Plain.ascii_only content = true ->
  Plain.ascii_only (content_loop page selectors content) = true.
Proof.
  intros (_ & _ & Hcleaned & _).
  revert content. induction selectors as [|selector rest IH]; intros content H;
    [exact H|].
  cbn [content_loop].
  destruct (cleaned_text page selector) as [text|] eqn:E; [|now apply IH].
  assert (Htrim : Plain.ascii_only (trim text) = true).
  { unfold Plain.ascii_only in *. apply negb_true_iff, trim_with_has_char.
    apply negb_true_iff. exact (Hcleaned selector text E). }
  cbv zeta. destruct (200 <? String.length (trim text)); [exact Htrim | now apply IH].
Qed.

Lemma collapse_newlines_plain (skip : nat) (s : string) :
  Plain.ascii_only s = true ->
  Plain.ascii_only (collapse_newlines_from skip s) = true.
Proof.
  unfold Plain.ascii_only. rewrite !negb_true_iff.
  revert skip. induction s as [|c s IH]; intros skip H; [reflexivity|].
  cbn [has_char] in H. apply orb_false_elim in H as [Hc Hs].
  cbn [collapse_newlines_from]. destruct skip as [|k]; [|now apply IH].
  assert (Hkeep : has_char (fun c => 128 <=? nat_of_ascii c)
                           (String c (collapse_newlines_from 0 s)) = false).
  { cbn [has_char]. now rewrite Hc, IH. }
  destruct (is_newline c); [|exact Hkeep].
  destruct (newlines_ahead s 0 0 0) as [count last].
  destruct (2 <=? count); [|exact Hkeep].
  change (nl ++ nl ++ collapse_newlines_from last s)%string
    with (String (ascii_of_nat 10)
                 (String (ascii_of_nat 10) (collapse_newlines_from last s))).
  cbn [has_char]. rewrite IH by exact Hs. reflexivity.
Qed.

Lemma collapse_blanks_plain (in_run : bool) (s : string) :
  Plain.ascii_only s = true ->
  Plain.ascii_only (collapse_blanks_from in_run s) = true.
Proof.
  unfold Plain.ascii_only. rewrite !negb_true_iff.
  revert in_run. induction s as [|c s IH]; intros in_run H; [reflexivity|].
  cbn [has_char] in H. apply orb_false_elim in H as [Hc Hs].
  cbn [collapse_blanks_from]. destruct (is_blank c).
  - destruct in_run; [now apply IH|]. cbn [has_char]. now rewrite IH.
  - cbn [has_char]. now rewrite Hc, IH.
Qed.

Lemma trim_plain (s : string) :
  Plain.ascii_only s = true -> Plain.ascii_only (trim s) = true.
Proof.
  unfold Plain.ascii_only. rewrite !negb_true_iff. apply trim_with_has_char.
Qed.


(** X19.  What [scrapeArticle] returns of a page of ASCII text: an
    ASCII text of at least 100 characters with no white space at either
    end, no tab and no two spaces in a row, under a title that is not
    empty.  What it throws is an error that starts with [HTTP] for a
    page answered with an error status, and with [Failed to scrape
    article:] for every other failure, too little text included. *)
Theorem scrapeArticle_text_is_clean (env : Env) (u : string) :
  (forall page, get_page env u = Return page -> Plain.ascii_page page) ->
  match scrapeArticle env u with
  | Return c =>
      Plain.ascii_only (scraped_content c) = true /\
      100 <= String.length (scraped_content c) /\
      trim (scraped_content c) = scraped_content c /\
      has_char (code_in [9]) (scraped_content c) = false /\
      includes "  " (scraped_content c) = false /\
      scraped_title c <> ""%string
  | Throw e =>
      exists msg, e = Err msg /\
        if match get_page env u with
           | Throw (HttpError _ _) => true
           | _ => false
           end
        then startsWith "HTTP " msg = true
        else startsWith "Failed to scrape article: " msg = true
  end.
Proof.
  intros Hplain. unfold scrapeArticle.
  destruct (get_page env u) as [page|[status statusText| | | |msg]];
    try (eexists; split; [reflexivity | apply StrFacts.prefix_append]).
  specialize (Hplain page eq_refl).
  set (text := if _ || _ then trim (body_text page) else _).
  assert (Htext : Plain.ascii_only text = true).
  { unfold text. destruct (_ || _).
    - apply trim_plain. now destruct Hplain as (_ & _ & _ & Hbody).
    - now apply content_loop_plain. }
  destruct (negb (truthy (clean_up text))); cbn [orb];
    [eexists; split; [reflexivity | apply StrFacts.prefix_append]|].
  destruct (String.length (clean_up text) <? 100) eqn:Elen;
    [eexists; split; [reflexivity | apply StrFacts.prefix_append]|].
  cbn [scraped_content scraped_title]. apply Nat.ltb_ge in Elen.
  split.
  { unfold clean_up. now apply trim_plain, collapse_blanks_plain,
                               collapse_newlines_plain. }
  split; [exact Elen|]. unfold clean_up. split; [apply trim_with_idempotent|].
  split; [apply trim_with_has_char, collapse_blanks_no_tab|].
  split; [apply trim_with_includes, (collapse_blanks_single false)|].
  apply or_untitled_truthy.
Qed.

Lemma guide_page_plain : Plain.ascii_page Samples.guide_page.
Proof.
  repeat split.
  - intros selector text. cbn [first_text Samples.guide_page].
    destruct (String.eqb selector "h1"); [|discriminate].
    now intros [= <-].
  - intros selector text. cbn [cleaned_text Samples.guide_page].
    destruct (String.eqb selector "article"); [|discriminate].
    now intros [= <-].
Qed.

Lemma scrapeArticle_text_is_clean_witness :
  match scrapeArticle (Samples.world_of "ollama" 0 Samples.plain_text)
                      Samples.first_hit with
  | Return c =>
      Plain.ascii_only (scraped_content c) = true /\
      100 <= String.length (scraped_content c) /\
      trim (scraped_content c) = scraped_content c /\
      has_char (code_in [9]) (scraped_content c) = false /\
      includes "  " (scraped_content c) = false /\
      scraped_title c <> ""%string
  | Throw e =>
      exists msg, e = Err msg /\ startsWith "Failed to scrape article: " msg = true
  end.
Proof.
  apply (scrapeArticle_text_is_clean
           (Samples.world_of "ollama" 0 Samples.plain_text) Samples.first_hit).
  intros page [= <-]. exact guide_page_plain.
Defined.



(** *** The fallback search *)

Lemma prefix_shorter (p a b : string) :
  String.prefix p (a ++ b) = true -> String.length p <= String.length a ->
  String.prefix p a = true.
Proof.
  revert a. induction p as [|x p IH]; intros a H Hlen; [now destruct a|].
  destruct a as [|y a]; [cbn [String.length] in Hlen; lia|].
  cbn [String.append String.prefix String.length] in *.
  destruct (ascii_dec x y); [|discriminate]. apply IH; [exact H | lia].
Qed.

Lemma match_uddg_cons (c : ascii) (s : string) :
  match_uddg (String c s)
  = if String.prefix "uddg=" (String c s)
    then match split_first amp (drop 5 (String c s)) with
         | EmptyString => match_uddg s
         | String a g => Some (String a g)
         end
    else match_uddg s.
Proof. reflexivity. Qed.

(** The regular expression takes the first [uddg=] that is followed by
    a character other than [&], up to the next [&]. *)
Lemma match_uddg_first (pre group tail : string) :
  includes "uddg=" (pre ++ "uddg") = false ->
  group <> ""%string ->
  has_char (fun d => Ascii.eqb d amp) group = false ->
  match tail with EmptyString => True | String c _ => c = amp end ->
  match_uddg (pre ++ "uddg=" ++ group ++ tail) = Some group.
Proof.
  intros Hfirst Hgroup Hamp Htail.
  assert (Hsplit : split_first amp (group ++ tail) = group).
  { rewrite RewriterFacts.split_first_passes by exact Hamp.
    destruct tail as [|c tail]; cbn [split_first].
    - apply StrFacts.append_empty_r.
    - subst c. rewrite Ascii.eqb_refl. apply StrFacts.append_empty_r. }
  induction pre as [|c pre IH].
  - change ("" ++ "uddg=" ++ group ++ tail)%string
      with (String "u" ("ddg=" ++ group ++ tail))%string.
    rewrite match_uddg_cons.
    change (String "u" ("ddg=" ++ group ++ tail))%string
      with ("uddg=" ++ (group ++ tail))%string.
    rewrite StrFacts.prefix_append.
    change (drop 5 ("uddg=" ++ (group ++ tail))) with (group ++ tail)%string.
    rewrite Hsplit. destruct group; [congruence | reflexivity].
  - cbn [String.append] in Hfirst. rewrite StrFacts.includes_cons in Hfirst.
    destruct (String.prefix "uddg=" (String c (pre ++ "uddg"))) eqn:Ehere;
      [discriminate|].
    change (String c pre ++ "uddg=" ++ group ++ tail)%string
      with (String c (pre ++ "uddg=" ++ group ++ tail)).
    rewrite match_uddg_cons.
    destruct (String.prefix "uddg=" (String c (pre ++ "uddg=" ++ group ++ tail)))
      eqn:Ethere; [|exact (IH Hfirst)].
    exfalso.
    assert (Eshape : String c (pre ++ "uddg=" ++ group ++ tail)
                     = (String c (pre ++ "uddg") ++ ("=" ++ group ++ tail))%string).
    { change (String c (pre ++ "uddg") ++ ("=" ++ group ++ tail))%string
        with (String c ((pre ++ "uddg") ++ ("=" ++ group ++ tail)))%string.
      f_equal. rewrite StrFacts.append_assoc. reflexivity. }
    rewrite Eshape in Ethere. apply prefix_shorter in Ethere.
    + congruence.
    + cbn [String.length]. rewrite StrFacts.length_append. cbn [String.length]. lia.
Qed.

(** X20.  A link of the results page that leads through the redirect of
    the search engine is replaced by its target: the text between the
    first [uddg=] and the next [&], decoded, with [https://] put before
    it when it does not start with [http]. *)
Theorem clean_href_follows_redirect
        (env : Env) (pre group tail target : string) :
  includes "uddg=" (pre ++ "uddg") = false ->
  group <> ""%string ->
  has_char (fun d => Ascii.eqb d amp) group = false ->
  match tail with EmptyString => True | String c _ => c = amp end ->
  decodeURIComponent env group = Return target ->
  clean_href env (pre ++ "uddg=" ++ group ++ tail)
  = if startsWith "http" target then target else ("https://" ++ target)%string.
Proof.
  intros Hfirst Hgroup Hamp Htail Hdecode. unfold clean_href.
  assert (Hin : includes "uddg=" (pre ++ "uddg=" ++ group ++ tail) = true).
  { apply StrFacts.includes_contains. now exists pre, (group ++ tail)%string. }
  rewrite Hin, (match_uddg_first pre group tail Hfirst Hgroup Hamp Htail), Hdecode.
  reflexivity.
Qed.

Lemma clean_href_follows_redirect_witness :
  clean_href Samples.fallback_world
             "//duckduckgo.com/l/?uddg=example.com/blog/chatbots&rut=0c1"
  = "https://example.com/blog/chatbots"%string.
Proof.
  apply (clean_href_follows_redirect
           Samples.fallback_world "//duckduckgo.com/l/?"
           "example.com/blog/chatbots" "&rut=0c1" "example.com/blog/chatbots").
  - reflexivity.
  - discriminate.
  - reflexivity.
  - reflexivity.
  - reflexivity.
Defined.

Lemma visit_link_Forall (env : Env) (P : string -> Prop)
      (urls : list string) (href : option string) :
  (forall u, startsWith "http" u = true -> includes "duckduckgo.com" u = false -> P u) ->
  Forall P urls -> Forall P (visit_link env urls href).
Proof.
  intros HP H. unfold visit_link.
  destruct href as [h|]; [|exact H].
  destruct (truthy h); [|exact H].
  destruct (ddg_accepts (clean_href env h)) eqn:Ea; [|exact H].
  destruct (in_urls (clean_href env h) urls); [exact H|].
  cbn [negb andb]. apply Forall_app. split; [exact H|].
  constructor; [|constructor].
  unfold ddg_accepts in Ea.
  repeat (apply andb_prop in Ea as [Ea ?]).
  apply HP; [|now apply negb_true_iff].
  unfold clean_href.
  destruct (startsWith "http" (if includes "uddg=" h then _ else h)) eqn:E;
    [exact E | reflexivity].
Qed.

Lemma each_link_Forall (env : Env) (P : string -> Prop)
      (hrefs : list (option string)) (urls : list string) :
  (forall u, startsWith "http" u = true -> includes "duckduckgo.com" u = false -> P u) ->
  Forall P urls -> Forall P (each_link env hrefs urls).
Proof.
  intros HP. revert urls. induction hrefs as [|h hrefs IH]; intros urls H; [exact H|].
  cbn [each_link]. destruct (2 <=? length urls); [exact H|].
  now apply IH, visit_link_Forall.
Qed.

Lemma visit_result_Forall (env : Env) (P : string -> Prop)
      (urls urls' : list string) (href : option string) :
  (forall u, startsWith "http" u = true -> includes "duckduckgo.com" u = false -> P u) ->
  Forall P urls -> visit_result env urls href = Return urls' -> Forall P urls'.
Proof.
  intros HP H. unfold visit_result.
  destruct href as [h|]; [|intros E; injection E as <-; exact H].
  destruct (truthy h); [|intros E; injection E as <-; exact H].
  destruct (if includes "uddg=" h then _ else _) as [u|e]; [|discriminate].
  set (cleanUrl := if startsWith "http" u then u else ("https://" ++ u)%string).
  destruct (result_accepts cleanUrl) eqn:Ea;
    [|intros E; injection E as <-; exact H].
  destruct (in_urls cleanUrl urls); intros E; injection E as <-; [exact H|].
  apply Forall_app. split; [exact H|]. constructor; [|constructor].
  unfold result_accepts in Ea.
  repeat (apply andb_prop in Ea as [Ea ?]).
  apply HP; [|now apply negb_true_iff].
  unfold cleanUrl. destruct (startsWith "http" u) eqn:E; [exact E | reflexivity].
Qed.

Lemma each_result_Forall (env : Env) (P : string -> Prop)
      (links : list (option string)) (urls urls' : list string) :
  (forall u, startsWith "http" u = true -> includes "duckduckgo.com" u = false -> P u) ->
  Forall P urls -> each_result env links urls = Return urls' -> Forall P urls'.
Proof.
  intros HP. revert urls. induction links as [|l links IH]; intros urls H.
  - intros E. injection E as <-. exact H.
  - cbn [each_result]. destruct (2 <=? length urls).
    + intros E. injection E as <-. exact H.
    + destruct (visit_result env urls l) as [urls1|e] eqn:Ev; [|discriminate].
      apply IH. now apply (visit_result_Forall env P urls urls1 l).
Qed.

Lemma Forall_firstn {A : Type} (P : A -> Prop) (n : nat) (l : list A) :
  Forall P l -> Forall P (firstn n l).
Proof.
  intros H. rewrite <- (firstn_skipn n l) in H. now apply Forall_app in H.
Qed.

(** X21.  Every link the fallback search returns is absolute, it starts
    with [http], and leads away from the search engine: no link that
    mentions [duckduckgo.com] is returned. *)
Theorem searchWithDuckDuckGo_links_absolute (env : Env) (query : string) :
  Forall (fun u => startsWith "http" u = true /\
                   includes "duckduckgo.com" u = false)
         (searchWithDuckDuckGo env query).
Proof.
  set (P := fun u => startsWith "http" u = true /\
                     includes "duckduckgo.com" u = false).
  assert (HP : forall u, startsWith "http" u = true ->
                         includes "duckduckgo.com" u = false -> P u)
    by (intros u H1 H2; now split).
  unfold searchWithDuckDuckGo.
  destruct (duckduckgo env query) as [page|e]; [|constructor].
  pose proof (each_link_Forall env P (flat_map (sp_select page) linkSelectors) []
                               HP (Forall_nil P)) as Hfirst.
  rewrite <- RewriterFacts.selector_loop_flat in Hfirst.
  destruct (length (selector_loop env page linkSelectors []) <? 2).
  - destruct (each_result env (sp_result_links page) _) as [urls'|e] eqn:E;
      [|constructor].
    apply Forall_firstn. now apply (each_result_Forall env P _ _ _ HP Hfirst E).
  - now apply Forall_firstn.
Qed.

(** X22.  The second pass of the fallback search does not catch a
    decoding error: when the first pass holds fewer than two links and
    the first result block leads through a redirect whose target cannot
    be decoded, the search returns no link at all, the links of the
    first pass included. *)
Theorem undecodable_result_loses_all_links
        (env : Env) (query : string) (page : SearchPage)
        (h group : string) (rest : list (option string)) (e : Error) :
  duckduckgo env query = Return page ->
  length (selector_loop env page linkSelectors []) < 2 ->
  sp_result_links page = Some h :: rest ->
  match_uddg h = Some group ->
  decodeURIComponent env group = Throw e ->
  searchWithDuckDuckGo env query = [].
Proof.
  intros Hpage Hfew Hlinks Hmatch Hdecode.
  unfold searchWithDuckDuckGo. rewrite Hpage. cbv zeta.
  apply Nat.ltb_lt in Hfew. rewrite Hfew, Hlinks. cbn [each_result].
  apply Nat.ltb_lt, Nat.leb_gt in Hfew. rewrite Hfew.
  unfold visit_result.
  assert (Hin : includes "uddg=" h = true).
  { clear - Hmatch. induction h as [|c h IH]; [discriminate|].
    rewrite StrFacts.includes_cons. rewrite match_uddg_cons in Hmatch.
    destruct (String.prefix "uddg=" (String c h)); [reflexivity|]. now apply IH. }
  assert (Htruthy : truthy h = true) by (destruct h; [discriminate | reflexivity]).
  rewrite Htruthy, Hin, Hmatch, Hdecode. reflexivity.
Qed.

Lemma undecodable_result_loses_all_links_witness :
  selector_loop MoreSamples.strict_world MoreSamples.page_with_broken_redirect
                linkSelectors []
  = [Samples.first_hit]
  /\ searchWithDuckDuckGo MoreSamples.strict_world "support chatbots" = [].
Proof.
  split; [reflexivity|].
  apply (undecodable_result_loses_all_links
           MoreSamples.strict_world "support chatbots"
           MoreSamples.page_with_broken_redirect
           MoreSamples.broken_redirect "%E0%A4%A" [] URIError).
  - reflexivity.
  - vm_compute. lia.
  - reflexivity.
  - reflexivity.
  - reflexivity.
Defined.

End RewriterMore.

(** ** The page that shows an article *)

Module FrontendFacts.
Import Str Frontend.
Local Open Scope list_scope.

Lemma split_lines_one (s : string) :
  has_char is_newline s = false -> split_lines s = [s].
Proof.
  induction s as [|c s IH]; [reflexivity|].
  cbn [has_char split_lines]. intros H. apply orb_false_elim in H as [Hc Hs].
  now rewrite Hc, IH.
Qed.

Lemma split_lines_append (a b : string) :
  has_char is_newline a = false ->
  split_lines (a ++ nl ++ b) = a :: split_lines b.
Proof.
  induction a as [|c a IH]; [reflexivity|].
  cbn [has_char]. intros H. apply orb_false_elim in H as [Hc Ha].
  change (String c a ++ nl ++ b)%string with (String c (a ++ nl ++ b)).
  cbn [split_lines]. now rewrite Hc, IH.
Qed.

(** Splitting undoes joining, for lines that hold no line feed. *)
Lemma split_lines_join (l : string) (ls : list string) :
  Forall (fun x => has_char is_newline x = false) (l :: ls) ->
  split_lines (join nl (l :: ls)) = l :: ls.
Proof.
  revert l. induction ls as [|m ls IH]; intros l H.
  - apply split_lines_one. now apply Forall_inv in H.
  - change (join nl (l :: m :: ls)) with (l ++ nl ++ join nl (m :: ls))%string.
    rewrite split_lines_append by now apply Forall_inv in H.
    f_equal. apply IH. now apply Forall_inv_tail in H.
Qed.

Lemma truthy_paragraph (l : string) :
  Rewriter.truthy (paragraph l) = Rewriter.truthy (trim l).
Proof.
  unfold paragraph. destruct (Rewriter.truthy (trim l)) eqn:E; [reflexivity | exact E].
Qed.

Lemma paragraphs_kept (ls : list string) :
  filter Rewriter.truthy (map paragraph ls)
  = map paragraph (filter (fun l => Rewriter.truthy (trim l)) ls).
Proof.
  induction ls as [|l ls IH]; [reflexivity|].
  cbn [map filter]. rewrite truthy_paragraph, IH.
  now destruct (Rewriter.truthy (trim l)).
Qed.

(** X23.  Of a text of ASCII characters, [formatContent] sets every
    line that is not blank, trimmed, as one paragraph, in the order of
    the text; blank lines leave nothing.  The line is put between the tags as it is: markup in the
    text is not escaped, and the Markdown of a references section is
    not rendered. *)
Theorem formatContent_paragraphs (ls : list string) :
  Forall (fun l => has_char is_newline l = false /\ Plain.ascii_only l = true) ls ->
  formatContent (join nl ls)
  = join "" (map (fun l => "<p class=" ++ dq ++ "mb-4" ++ dq ++ ">"
                           ++ trim l ++ "</p>")%string
                 (filter (fun l => Rewriter.truthy (trim l)) ls)).
Proof.
  intros Hplain.
  assert (H : Forall (fun l => has_char is_newline l = false) ls).
  { eapply Forall_impl; [|exact Hplain]. now intros l [Hl _]. }
  unfold formatContent.
  assert (E : filter Rewriter.truthy (map paragraph (split_lines (join nl ls)))
              = filter Rewriter.truthy (map paragraph ls)).
  { destruct ls as [|l ls]; [reflexivity|]. now rewrite split_lines_join. }
  rewrite E, paragraphs_kept. f_equal.
  apply map_ext_in. intros l Hl. apply filter_In in Hl as [_ Hl].
  unfold paragraph. now rewrite Hl.
Qed.

Lemma formatContent_paragraphs_witness :
  formatContent (Rewriter.references_section Samples.two_references)
  = ("<p class=" ++ dq ++ "mb-4" ++ dq ++ ">## References</p>"
     ++ "<p class=" ++ dq ++ "mb-4" ++ dq
     ++ ">1. [A guide to support chatbots](https://example.com/blog/chatbots)</p>"
     ++ "<p class=" ++ dq ++ "mb-4" ++ dq
     ++ ">2. [A guide to support chatbots](https://example.org/post/support-bots)</p>")%string.
Proof.
  apply (formatContent_paragraphs
           [ ""; ""; "## References"; "";
             "1. [A guide to support chatbots](https://example.com/blog/chatbots)";
             "2. [A guide to support chatbots](https://example.org/post/support-bots)"
           ]%string).
  repeat constructor.
Defined.

End FrontendFacts.
